(** * poetry-declamation: the markdown-dialect parser and HTML emitter

    A shallow embedding of [src/poetry-declamation/build.py] (the index-based
    generator) and [src/poetry-declamation/build_v3.py] (the per-line
    generator), with the properties of the specification stated over it.

    Conventions.
    - A Python [str] is a [list ascii]; a character is read as the code point
      of the same number, so the documents covered are those over the code
      points U+0000..U+00FF.
    - A [dict] is a [gmap]; [d.get(k)] is [d !! k].
    - [out.append(x)] is [out ++ [x]].
    - The pair [(lines, i)] of an index-based loop is the suffix [lines[i:]]:
      [i += 1] drops the head, [i < len(lines)] says the suffix is not empty.
    - [re.match], [re.search] and [re.sub] are a backtracking matcher over
      the pattern syntax the two files use; every pattern of the source is
      written out as a [regex] value next to its source text. *)

From Stdlib Require Import Ascii String DecimalString.
From stdpp Require Import gmap strings list fin_maps.

(** ** Strings *)

Abbreviation str := (list ascii).

(** String literals denote lists of characters. *)
Definition literal : Type := list ascii.

Declare Scope str_scope.
Delimit Scope str_scope with str.
#[warnings="-via-type-mismatch,-via-type-remapping"]
String Notation literal string_of_list_byte list_byte_of_string
  (via string mapping [[nil] => EmptyString, [cons] => String]) : str_scope.
Open Scope str_scope.

Module Py.

(** Code point of a character. *)
Definition ord (c : ascii) : nat := nat_of_ascii c.

Definition in_range (lo hi : nat) (c : ascii) : bool :=
  (lo <=? ord c)%nat && (ord c <=? hi)%nat.

Definition chr_eqb (a b : ascii) : bool := Ascii.eqb a b.

(** The double-quote character and the one-character string holding it. *)
Definition dquote : ascii := "034"%char.
Definition dq : str := [dquote].

(** [c in chars] for a character [c]. *)
Definition one_of (chars : str) (c : ascii) : bool := existsb (chr_eqb c) chars.

(** [str.isspace] on one character, which is also the class [\s] of [re] on
    [str] patterns: TAB..CR, FS..US, SPACE, NEL (U+0085), NBSP (U+00A0). *)
Definition is_space (c : ascii) : bool :=
  in_range 9 13 c || in_range 28 32 c || (ord c =? 133)%nat || (ord c =? 160)%nat.

(** The characters [str.splitlines] breaks a line at: LF, VT, FF, CR,
    FS, GS, RS and NEL. *)
Definition is_linebreak (c : ascii) : bool :=
  in_range 10 13 c || in_range 28 30 c || (ord c =? 133)%nat.

Definition is_digit (c : ascii) : bool := in_range 48 57 c.
Definition is_upper (c : ascii) : bool := in_range 65 90 c.
Definition is_lower (c : ascii) : bool := in_range 97 122 c.

(** The class [\w] of [re] on [str] patterns: [str.isalnum] or [_]. Below
    U+0100 the alphanumerics are the ASCII ones and a part of Latin-1. *)
Definition is_word (c : ascii) : bool :=
  is_digit c || is_upper c || is_lower c || chr_eqb c "_"
  || (ord c =? 170)%nat || (ord c =? 178)%nat || (ord c =? 179)%nat
  || (ord c =? 181)%nat || (ord c =? 185)%nat || (ord c =? 186)%nat
  || in_range 188 190 c || in_range 192 214 c || in_range 216 246 c
  || in_range 248 255 c.

(** [s == t] *)
Definition eqb (s t : str) : bool := bool_decide (s = t).

(** [bool(s)]: a string is true when it is not empty. *)
Definition truthy (s : str) : bool :=
  match s with [] => false | _ :: _ => true end.

(** [s.lstrip(chars)], [s.rstrip(chars)] with the set of characters given
    as a predicate. *)
Fixpoint lstrip_with (p : ascii -> bool) (s : str) : str :=
  match s with
  | c :: t => if p c then lstrip_with p t else s
  | [] => []
  end.

Definition rstrip_with (p : ascii -> bool) (s : str) : str :=
  rev (lstrip_with p (rev s)).

(** [s.lstrip()], [s.rstrip()], [s.strip()] *)
Definition lstrip (s : str) : str := lstrip_with is_space s.
Definition rstrip (s : str) : str := rstrip_with is_space s.
Definition strip (s : str) : str := lstrip (rstrip s).

(** [s.rstrip("\n")] *)
Definition rstrip_nl (s : str) : str := rstrip_with (one_of ["010"%char]) s.

(** [s.startswith(p)], returning the rest of [s] after [p]. *)
Fixpoint strip_prefix (p s : str) : option str :=
  match p, s with
  | [], _ => Some s
  | a :: p', b :: s' => if chr_eqb a b then strip_prefix p' s' else None
  | _ :: _, [] => None
  end.

Definition startswith (p s : str) : bool :=
  match strip_prefix p s with Some _ => true | None => false end.

(** [s.splitlines()]: [cur] holds the current line, reversed. CR LF is one
    break; a break at the very end opens no further line. *)
Fixpoint splitlines_from (cur : str) (s : str) : list str :=
  match s with
  | [] => match cur with [] => [] | _ => [rev cur] end
  | c :: t =>
      if chr_eqb c "013" then
        rev cur :: match t with
                   | d :: t' => if chr_eqb d "010" then splitlines_from [] t'
                                else splitlines_from [] t
                   | [] => splitlines_from [] t
                   end
      else if is_linebreak c then rev cur :: splitlines_from [] t
      else splitlines_from (c :: cur) t
  end.

Definition splitlines (s : str) : list str := splitlines_from [] s.

(** [sep.join(parts)] *)
Fixpoint join (sep : str) (parts : list str) : str :=
  match parts with
  | [] => []
  | [x] => x
  | x :: rest => x ++ sep ++ join sep rest
  end.

(** ["".join(parts)] *)
Definition cat (parts : list str) : str := concat parts.

(** [s.replace(old, new)] for a non-empty [old]: the occurrences are found
    from the left and do not overlap; [skip] counts the characters of the
    occurrence just replaced that are still to be dropped. *)
Fixpoint replace_from (old new : str) (skip : nat) (s : str) : str :=
  match s with
  | [] => []
  | c :: t =>
      match skip with
      | S n => replace_from old new n t
      | O => if startswith old s
             then new ++ replace_from old new (length old - 1) t
             else c :: replace_from old new 0 t
      end
  end.

Definition replace (old new s : str) : str := replace_from old new 0 s.

(** [str(n)] for a natural number: its decimal digits. *)
Definition str_of_nat (n : nat) : str :=
  list_ascii_of_string (DecimalString.NilZero.string_of_uint (Nat.to_uint n)).

(** [html.escape(s, quote=True)], as the standard library writes it: five
    replacements in a row, the ampersand first. *)
Definition html_escape (s : str) : str :=
  let s := replace "&" "&amp;" s in
  let s := replace "<" "&lt;" s in
  let s := replace ">" "&gt;" s in
  let s := replace dq "&quot;" s in
  let s := replace "'" "&#x27;" s in
  s.

End Py.

(** ** Regular expressions

    The part of Python's [re] the two files use. Matching is by
    backtracking, as in [re]: alternatives are tried from the left, a greedy
    repetition tries the longest run first and a lazy one the shortest, and
    the first way to reach the end of the pattern is the match.

    Where a pattern of the source is quoted in a comment, a space is put
    between an asterisk and a closing parenthesis that follows it. *)

Module Re.

Import Py.

Inductive regex : Type :=
| Lit (s : str)                       (* literal text *)
| Cls (p : ascii -> bool)            (* one character of a class *)
| Seq (r1 r2 : regex)                 (* r1 r2 *)
| Alt (r1 r2 : regex)                 (* r1|r2 *)
| Rep (p : ascii -> bool) (lo : nat) (hi : option nat) (greedy : bool)
                                      (* [p]{lo,hi}, [p]{lo,hi}? *)
| Group (n : nat) (r : regex)         (* the n-th capturing group *)
| Bol                                 (* ^ *)
| Eol                                 (* $ *)
| WordB                               (* \b *)
| NotBehind (p : ascii -> bool)       (* (?<!c) for one character *)
| NotAhead (p : ascii -> bool).       (* (?!c) for one character *)

Infix "⋅" := Seq (at level 41, right associativity).

(** [c*], [c+] and [c*?] *)
Definition star (p : ascii -> bool) : regex := Rep p 0 None true.
Definition plus (p : ascii -> bool) : regex := Rep p 1 None true.
Definition star_lazy (p : ascii -> bool) : regex := Rep p 0 None false.

(** The classes of the patterns. *)
Definition chr (a : ascii) : ascii -> bool := chr_eqb a.
Definition not_in (chars : str) (c : ascii) : bool := negb (one_of chars c).
(** [.] is any character but a newline. *)
Definition dot : ascii -> bool := not_in ["010"%char].
(** [[a-zA-Z0-9_\-]] *)
Definition id_char (c : ascii) : bool :=
  is_lower c || is_upper c || is_digit c || one_of "_-" c.

(** A position in the subject: the text before it (reversed), the text from
    it on, and the groups captured so far, the latest first. *)
Record mstate := MState {
  seen : str;
  rest : str;
  caps : list (nat * str)
}.

(** The text between two positions of one subject. *)
Definition consumed (from to : mstate) : str :=
  take (length (rest from) - length (rest to)) (rest from).

Definition may_repeat (hi : option nat) : bool :=
  match hi with Some O => false | _ => true end.

Definition one_less (hi : option nat) : option nat :=
  match hi with Some n => Some (pred n) | None => None end.

Section Matcher.

Context {A : Type}.

(** A repetition of a character class, followed by the continuation [k]. *)
Fixpoint rep (p : ascii -> bool) (greedy : bool) (lo : nat) (hi : option nat)
    (k : str -> str -> option A) (sn rs : str) : option A :=
  if greedy then
    match
      match rs with
      | c :: t => if p c && may_repeat hi
                  then rep p greedy (pred lo) (one_less hi) k (c :: sn) t
                  else None
      | [] => None
      end
    with
    | Some x => Some x
    | None => match lo with O => k sn rs | S _ => None end
    end
  else
    match match lo with O => k sn rs | S _ => None end with
    | Some x => Some x
    | None =>
        match rs with
        | c :: t => if p c && may_repeat hi
                    then rep p greedy (pred lo) (one_less hi) k (c :: sn) t
                    else None
        | [] => None
        end
    end.

Definition opt_head_is (p : ascii -> bool) (s : str) : bool :=
  match s with c :: _ => p c | [] => false end.

(** [run r k st]: match [r] at [st], then go on with [k]; [None] when every
    way of matching [r] here leads [k] to fail. *)
Fixpoint run (r : regex) (k : mstate -> option A) (st : mstate) : option A :=
  match r with
  | Lit s =>
      match strip_prefix s (rest st) with
      | Some t => k (MState (rev s ++ seen st) t (caps st))
      | None => None
      end
  | Cls p =>
      match rest st with
      | c :: t => if p c then k (MState (c :: seen st) t (caps st)) else None
      | [] => None
      end
  | Seq r1 r2 => run r1 (run r2 k) st
  | Alt r1 r2 =>
      match run r1 k st with
      | Some x => Some x
      | None => run r2 k st
      end
  | Rep p lo hi greedy =>
      rep p greedy lo hi (fun sn rs => k (MState sn rs (caps st)))
          (seen st) (rest st)
  | Group n r1 =>
      run r1 (fun st' =>
                k (MState (seen st') (rest st')
                          ((n, consumed st st') :: caps st'))) st
  | Bol => match seen st with [] => k st | _ :: _ => None end
  | Eol =>
      match rest st with
      | [] => k st
      | [c] => if chr_eqb c "010" then k st else None
      | _ => None
      end
  | WordB =>
      if xorb (opt_head_is is_word (seen st)) (opt_head_is is_word (rest st))
      then k st else None
  | NotBehind p => if opt_head_is p (seen st) then None else k st
  | NotAhead p => if opt_head_is p (rest st) then None else k st
  end.

End Matcher.

(** A match object: [m.group(0)], the captured groups, the text after. *)
Record rmatch := RMatch {
  m_text : str;
  m_caps : list (nat * str);
  m_after : str
}.

Fixpoint lookup_cap (n : nat) (l : list (nat * str)) : option str :=
  match l with
  | [] => None
  | (i, s) :: l' => if (i =? n)%nat then Some s else lookup_cap n l'
  end.

(** [m.group(n)]. Every group of the patterns below takes part in every
    match of its pattern, so the [None] of a skipped group does not arise;
    it is read as the empty string. *)
Definition group (n : nat) (m : rmatch) : str :=
  match n with
  | O => m_text m
  | S _ => default [] (lookup_cap n (m_caps m))
  end.

(** One attempt at one position. With [must_advance] an empty match is
    refused (and the matcher backtracks into a longer one, if any). *)
Definition attempt (r : regex) (must_advance : bool) (sn s : str) : option rmatch :=
  let st0 := MState sn s [] in
  run r (fun st =>
           if must_advance && (length (rest st) =? length s)%nat then None
           else Some (RMatch (consumed st0 st) (caps st) (rest st)))
      st0.

(** [re.match(r, s)] *)
Definition rmatch_at_start (r : regex) (s : str) : option rmatch :=
  attempt r false [] s.

(** [re.search(r, s)]: the first position, from the left, with a match. *)
Fixpoint search_from (r : regex) (sn s : str) : option rmatch :=
  match attempt r false sn s with
  | Some m => Some m
  | None =>
      match s with
      | c :: t => search_from r (c :: sn) t
      | [] => None
      end
  end.

Definition search (r : regex) (s : str) : option rmatch := search_from r [] s.

(** [re.sub(r, f, s)] with a replacement function [f] that may keep a state
    of its own (the list [anchors] of [inline_format]). The matches are
    found from the left and do not overlap. [skip] counts the characters of
    the last match still to be passed over. After an empty match the next
    attempt at the same position must advance; if it cannot, the character
    is copied and the search goes on behind it. *)
Section Sub.

Context {S : Type}.
Variable r : regex.
Variable f : S -> rmatch -> S * str.

Fixpoint sub_from (acc : S) (sn : str) (skip : nat) (s : str) : S * str :=
  match skip with
  | Datatypes.S n =>
      match s with
      | c :: t => sub_from acc (c :: sn) n t
      | [] => (acc, [])
      end
  | O =>
      match attempt r false sn s with
      | None =>
          match s with
          | c :: t => let '(acc', o) := sub_from acc (c :: sn) 0 t in (acc', c :: o)
          | [] => (acc, [])
          end
      | Some m =>
          let '(acc1, rep1) := f acc m in
          match m_text m with
          | _ :: _ =>
              match s with
              | c :: t =>
                  let '(acc', o) := sub_from acc1 (c :: sn) (length (m_text m) - 1) t in
                  (acc', rep1 ++ o)
              | [] => (acc1, rep1)
              end
          | [] =>
              match attempt r true sn s with
              | Some m2 =>
                  let '(acc2, rep2) := f acc1 m2 in
                  match s with
                  | c :: t =>
                      let '(acc', o) := sub_from acc2 (c :: sn) (length (m_text m2) - 1) t in
                      (acc', rep1 ++ rep2 ++ o)
                  | [] => (acc2, rep1 ++ rep2)
                  end
              | None =>
                  match s with
                  | c :: t =>
                      let '(acc', o) := sub_from acc1 (c :: sn) 0 t in
                      (acc', rep1 ++ c :: o)
                  | [] => (acc1, rep1)
                  end
              end
          end
      end
  end.

Definition sub_with (acc : S) (s : str) : S * str := sub_from acc [] 0 s.

End Sub.

(** [re.sub(r, f, s)] for a replacement function without a state, and for a
    replacement template, which is such a function of the groups. *)
Definition sub (r : regex) (f : rmatch -> str) (s : str) : str :=
  snd (sub_with r (fun (_ : unit) m => (tt, f m)) tt s).

End Re.

(** ** The functions both generators define

    [build.py] and [build_v3.py] define [parse_bookmarks], [video_block],
    [inline_link], [expand_inline_refs] and [inline_format] with the same
    text, line for line; they are embedded once. *)

Module Common.

Import Py Re.

(** A resource is a [dict[str, str]], the table a [dict] of resources. *)
Abbreviation item := (gmap str str).
Abbreviation table := (gmap str (gmap str str)).

Definition nl : str := ["010"%char].
Definition quoted (s : str) : str := dq ++ s ++ dq.

(** [x or y] on strings *)
Definition or_str (x y : str) : str := if truthy x then x else y.

(** [bool(item)] for [item = resources.get(rid)]: [None] and the empty
    dict are false. *)
Definition truthy_item (it : option item) : bool :=
  match it with
  | Some d => negb (bool_decide (d = ∅))
  | None => false
  end.

(** [bool(item.get(key))] *)
Definition truthy_get (it : option item) (key : str) : bool :=
  match it ≫= (.!! key) with
  | Some v => truthy v
  | None => false
  end.

(** *** parse_bookmarks *)

(** r"^@(video|link)\s+([a-zA-Z0-9_\-]+)\s*$" *)
Definition decl_re : regex :=
  Bol ⋅ Lit "@" ⋅ Group 1 (Alt (Lit "video") (Lit "link")) ⋅ plus is_space
      ⋅ Group 2 (plus id_char) ⋅ star is_space ⋅ Eol.

(** r"^@(video|link)\s+" *)
Definition decl_start_re : regex :=
  Bol ⋅ Lit "@" ⋅ Group 1 (Alt (Lit "video") (Lit "link")) ⋅ plus is_space.

(** r"^(label|url|desc)\s*:\s*(.+)\s*$" *)
Definition kv_re : regex :=
  Bol ⋅ Group 1 (Alt (Lit "label") (Alt (Lit "url") (Lit "desc")))
      ⋅ star is_space ⋅ Lit ":" ⋅ star is_space ⋅ Group 2 (plus dot)
      ⋅ star is_space ⋅ Eol.

(** [{"type": rtype, "label": "", "url": "", "desc": ""}] *)
Definition new_item (rtype : str) : item :=
  <["desc" := []]> (<["url" := []]> (<["label" := []]> (<["type" := rtype]> ∅))).

(** The body of the inner loop, for a line that does not start a
    declaration: [kv = re.match(...); if kv: item[kv.group(1)] = ...]. *)
Definition apply_attr (it : item) (nxt : str) : item :=
  match rmatch_at_start kv_re nxt with
  | Some kv => <[group 1 kv := strip (group 2 kv)]> it
  | None => it
  end.

(** The inner [while]: it stops at the end of the input or, by [break], at
    a line that starts a declaration, which it leaves in place. *)
Fixpoint scan_item (lines : list str) (it : item) : item * list str :=
  match lines with
  | [] => (it, [])
  | l :: rest =>
      let nxt := rstrip l in
      match rmatch_at_start decl_start_re nxt with
      | Some _ => (it, lines)
      | None => scan_item rest (apply_attr it nxt)
      end
  end.

(** One turn of the outer [while], at the line [line] followed by [rest]. *)
Definition parse_step (line : str) (rest : list str) (resources : table)
    : list str * table :=
  match rmatch_at_start decl_re (rstrip line) with
  | None => (rest, resources)
  | Some m =>
      let rtype := group 1 m in
      let rid := group 2 m in
      let '(it, rest') := scan_item rest (new_item rtype) in
      (rest', <[rid := it]> resources)
  end.

(** [n] turns of the outer [while] (fewer if the input ends before). *)
Fixpoint parse_run (n : nat) (lines : list str) (resources : table)
    : list str * table :=
  match n, lines with
  | S n', line :: rest =>
      let '(lines', resources') := parse_step line rest resources in
      parse_run n' lines' resources'
  | _, _ => (lines, resources)
  end.

(** [parse_bookmarks(md)]. Every turn drops at least one line, so
    [len(lines)] turns reach the end; [None] would say they did not. *)
Definition parse_bookmarks (md : str) : option table :=
  let lines := splitlines md in
  match parse_run (length lines) lines ∅ with
  | ([], resources) => Some resources
  | (_ :: _, _) => None
  end.

(** *** video_block *)

(** r"youtu\.be/([^?&/]+)" *)
Definition youtu_be_re : regex :=
  Lit "youtu.be/" ⋅ Group 1 (plus (not_in "?&/")).

(** r"youtube\.com/watch\?v=([^?&/]+)" *)
Definition youtube_re : regex :=
  Lit "youtube.com/watch?v=" ⋅ Group 1 (plus (not_in "?&/")).

(** The fragment returned for an id without a usable resource. *)
Definition missing_bookmark (rid : str) : str :=
  "<div class='video'>"
  ++ "<div class='video-top'>"
  ++ "<div class='video-title'><span class='tag'>Video</span> Missing bookmark: "
  ++ "<code>" ++ html_escape rid ++ "</code></div>"
  ++ "</div></div>".

Definition target_blank : str :=
  " target=" ++ quoted "_blank" ++ " rel=" ++ quoted "noreferrer" ++ ">".

Definition video_block (rid : str) (resources : table) : str :=
  let it := resources !! rid in
  if negb (truthy_item it) || negb (truthy_get it "url") then missing_bookmark rid
  else
    let url := default [] (it ≫= (.!! "url")) in
    let label := strip (or_str (default "Video" (it ≫= (.!! "label"))) "Video") in
    let desc := strip (or_str (default [] (it ≫= (.!! "desc"))) []) in
    let vid : option str := None in
    let vid := match search youtu_be_re url with
               | Some m => Some (group 1 m) | None => vid end in
    let vid := match search youtube_re url with
               | Some m => Some (group 1 m) | None => vid end in
    let safe_url := html_escape url in
    let safe_label := html_escape label in
    let safe_desc := html_escape desc in
    let thumb_html :=
      match vid with
      | Some v =>
          if truthy v then
            let thumb := "https://i.ytimg.com/vi/" ++ v ++ "/hqdefault.jpg" in
            "<a class='video-thumb' href=" ++ quoted safe_url ++ target_blank
            ++ "<img alt='Video thumbnail' src=" ++ quoted (html_escape thumb) ++ "></a>"
          else []
      | None => []
      end in
    let top :=
      ["<div class='video-top'>";
       thumb_html;
       "<div class='video-title'><span class='tag'>Video</span> "
       ++ "<a href=" ++ quoted safe_url ++ target_blank
       ++ "<strong>" ++ safe_label ++ "</strong></a></div>"]
      ++ (if truthy desc then ["<p class='video-desc'>" ++ safe_desc ++ "</p>"] else [])
      ++ ["</div>"] in
    let bottom :=
      "<div class='video-bottom'>"
      ++ "<p class='video-open'><a href=" ++ quoted safe_url ++ target_blank
      ++ "Open on YouTube</a></p>"
      ++ "</div>" in
    "<div class='video'>" ++ cat top ++ bottom ++ "</div>".

(** *** inline_link, expand_inline_refs *)

Definition inline_link (rid : str) (resources : table) : str :=
  let it := resources !! rid in
  if negb (truthy_item it) || negb (truthy_get it "url")
  then "<code>Missing:" ++ html_escape rid ++ "</code>"
  else
    let url := default [] (it ≫= (.!! "url")) in
    let label := strip (or_str (default "Link" (it ≫= (.!! "label"))) "Link") in
    let safe_url := html_escape url in
    let safe_label := html_escape label in
    "<a href=" ++ quoted safe_url ++ target_blank ++ safe_label ++ "</a>".

(** r"\{\{link:([a-zA-Z0-9_\-]+)\}\}" *)
Definition link_ref_re : regex :=
  Lit "{{link:" ⋅ Group 1 (plus id_char) ⋅ Lit "}}".

Definition expand_inline_refs (text : str) (resources : table) : str :=
  sub link_ref_re (fun m => inline_link (group 1 m) resources) text.

(** *** inline_format *)

(** r"<a\b[^>]*>.*?</a>" *)
Definition anchor_re : regex :=
  Lit "<a" ⋅ WordB ⋅ star (not_in ">") ⋅ Lit ">" ⋅ star_lazy dot ⋅ Lit "</a>".

(** r"`([^`]+)`" *)
Definition code_re : regex := Lit "`" ⋅ Group 1 (plus (not_in "`")) ⋅ Lit "`".

(** r"\*\*([^*]+)\*\*" *)
Definition bold_re : regex := Lit "**" ⋅ Group 1 (plus (not_in "*")) ⋅ Lit "**".

(** r"(?<!\* )\*([^*]+)\*(?!\* )" *)
Definition em_re : regex :=
  NotBehind (chr "*") ⋅ Lit "*" ⋅ Group 1 (plus (not_in "*")) ⋅ Lit "*"
                      ⋅ NotAhead (chr "*").

(** [f"@@ANCHOR{i}@@"] *)
Definition placeholder (i : nat) : str := "@@ANCHOR" ++ str_of_nat i ++ "@@".

(** The local function [protect]; its state is the list [anchors]. *)
Definition protect (anchors : list str) (m : rmatch) : list str * str :=
  let anchors := anchors ++ [group 0 m] in
  (anchors, placeholder (length anchors - 1)).

(** [for i, a in enumerate(anchors): esc = esc.replace(f"@@ANCHOR{i}@@", a)] *)
Fixpoint restore_from (i : nat) (anchors : list str) (esc : str) : str :=
  match anchors with
  | [] => esc
  | a :: more => restore_from (S i) more (replace (placeholder i) a esc)
  end.

Definition inline_format (text : str) : str :=
  let '(anchors, protected) := sub_with anchor_re protect [] text in
  let esc := html_escape protected in
  let esc := sub code_re (fun m => "<code>" ++ group 1 m ++ "</code>") esc in
  let esc := sub bold_re (fun m => "<strong>" ++ group 1 m ++ "</strong>") esc in
  let esc := sub em_re (fun m => "<em>" ++ group 1 m ++ "</em>") esc in
  restore_from 0 anchors esc.

End Common.

(** ** The render state of [md_to_html]

    The list [out] and the four flags the loop and its two local functions
    [close_lists] and [close_bq] share. Both generators declare them alike. *)

Module Render.

Import Py Re Common.

Record rstate := RState {
  out : list str;
  in_ul : bool;
  in_ol : bool;
  in_bq : bool;
  in_teacher : bool
}.

Definition init : rstate := RState [] false false false false.

(** [out.append(x)] *)
Definition emit (x : str) (st : rstate) : rstate :=
  RState (out st ++ [x]) (in_ul st) (in_ol st) (in_bq st) (in_teacher st).

Definition set_ul (b : bool) (st : rstate) : rstate :=
  RState (out st) b (in_ol st) (in_bq st) (in_teacher st).
Definition set_ol (b : bool) (st : rstate) : rstate :=
  RState (out st) (in_ul st) b (in_bq st) (in_teacher st).
Definition set_bq (b : bool) (st : rstate) : rstate :=
  RState (out st) (in_ul st) (in_ol st) b (in_teacher st).
Definition set_teacher (b : bool) (st : rstate) : rstate :=
  RState (out st) (in_ul st) (in_ol st) (in_bq st) b.

Definition close_lists (st : rstate) : rstate :=
  let st := if in_ul st then set_ul false (emit "</ul>" st) else st in
  let st := if in_ol st then set_ol false (emit "</ol>" st) else st in
  st.

Definition close_bq (st : rstate) : rstate :=
  if in_bq st then set_bq false (emit "</blockquote>" st) else st.

(** The statements after the loop, up to the [return]. *)
Definition finish (st : rstate) : rstate :=
  let st := close_bq (close_lists st) in
  if in_teacher st then emit "</div>" st else st.

(** r"^\{\{video:([a-zA-Z0-9_\-]+)\}\}\s*$" *)
Definition video_ref_re : regex :=
  Bol ⋅ Lit "{{video:" ⋅ Group 1 (plus id_char) ⋅ Lit "}}" ⋅ star is_space ⋅ Eol.

(** r"^(#{1,4})\s+(.* )$" *)
Definition heading_re : regex :=
  Bol ⋅ Group 1 (Rep (chr "#") 1 (Some 4) true) ⋅ plus is_space
      ⋅ Group 2 (star dot) ⋅ Eol.

(** r"^(\d+)\.\s+(.* )$" *)
Definition ol_re : regex :=
  Bol ⋅ Group 1 (plus is_digit) ⋅ Lit "." ⋅ plus is_space ⋅ Group 2 (star dot) ⋅ Eol.

(** r"^[-*]\s+(.* )$" *)
Definition ul_re : regex :=
  Bol ⋅ Cls (one_of "-*") ⋅ plus is_space ⋅ Group 1 (star dot) ⋅ Eol.

(** [f"<h{level}{cls}>{title}</h{level}>"] *)
Definition heading_html (mh : rmatch) : str :=
  let level := length (group 1 mh) in
  let title := html_escape (strip (group 2 mh)) in
  let cls := if negb (level =? 1)%nat then [] else " class=" ++ quoted "doc-title" in
  "<h" ++ str_of_nat level ++ cls ++ ">" ++ title ++ "</h" ++ str_of_nat level ++ ">".

Definition teacher_open : str := "<div class=" ++ quoted "teacher-only" ++ ">".

End Render.

(** ** build.py *)

Module Build.

Import Py Re Common Render.

(** The dict [prompts] of a fenced block: its keys are fixed, its values a
    string and two lists. *)
Record prompts := Prompts {
  task : str;
  watch : list str;
  after : list str
}.

(** [{"task": "", "watch": [], "after": []}] *)
Definition no_prompts : prompts := Prompts [] [] [].

(** [prompts[key].append(v)] for [key] one of ["watch"] and ["after"]. *)
Definition append_to (key : str) (v : str) (p : prompts) : prompts :=
  if eqb key "watch" then Prompts (task p) (watch p ++ [v]) (after p)
  else if eqb key "after" then Prompts (task p) (watch p) (after p ++ [v])
  else p.

Definition set_task (v : str) (p : prompts) : prompts :=
  Prompts v (watch p) (after p).

(** [<li>] items of a list of prompts *)
Definition prompt_items (l : list str) (resources : table) : list str :=
  map (fun it => "<li>" ++ inline_format (expand_inline_refs it resources) ++ "</li>") l.

Definition local_prompts_block (p : prompts) (resources : table) : str :=
  let sections : list str := [] in
  let task := strip (or_str (task p) []) in
  let sections :=
    if truthy task then
      let task_html := inline_format (expand_inline_refs task resources) in
      sections ++ ["<div class='prompt-section'>"
                   ++ "<div class='prompt-title'>Task</div>"
                   ++ "<p>" ++ task_html ++ "</p>"
                   ++ "</div>"]
    else sections in
  let sections :=
    match watch p with
    | _ :: _ =>
        sections ++ ["<div class='prompt-section'>"
                     ++ "<div class='prompt-title'>Watch for</div>"
                     ++ "<ul>" ++ cat (prompt_items (watch p) resources) ++ "</ul>"
                     ++ "</div>"]
    | [] => sections
    end in
  let sections :=
    match after p with
    | _ :: _ =>
        sections ++ ["<div class='prompt-section'>"
                     ++ "<div class='prompt-title'>After watching</div>"
                     ++ "<ul>" ++ cat (prompt_items (after p) resources) ++ "</ul>"
                     ++ "</div>"]
    | [] => sections
    end in
  match sections with
  | [] => []
  | _ :: _ =>
      "<div class='local-prompts'>"
      ++ "<div class='local-prompts-title'>Local prompts</div>"
      ++ cat sections
      ++ "</div>"
  end.

(** r"^```video\s+([a-zA-Z0-9_\-]+)\s*$" *)
Definition fence_re : regex :=
  Bol ⋅ Lit "```video" ⋅ plus is_space ⋅ Group 1 (plus id_char) ⋅ star is_space ⋅ Eol.

(** r"^(task|watch|after)\s*:\s*(.* )$" *)
Definition key_re : regex :=
  Bol ⋅ Group 1 (Alt (Lit "task") (Alt (Lit "watch") (Lit "after")))
      ⋅ star is_space ⋅ Lit ":" ⋅ star is_space ⋅ Group 2 (star dot) ⋅ Eol.

(** r"^\s*-\s+(.* )$" *)
Definition item_re : regex :=
  Bol ⋅ star is_space ⋅ Lit "-" ⋅ plus is_space ⋅ Group 1 (star dot) ⋅ Eol.

(** [current in ("watch", "after")] *)
Definition in_list_section (current : option str) : bool :=
  match current with
  | Some c => eqb c "watch" || eqb c "after"
  | None => false
  end.

(** The body of the inner [while] for a line [raw] that is not the closing
    fence: the new prompts and the new current section. *)
Definition fence_line (p : prompts) (current : option str) (raw : str)
    : prompts * option str :=
  let line_in := rstrip raw in
  match rmatch_at_start key_re (strip line_in) with
  | Some mkey =>
      let key := group 1 mkey in
      let rest := strip (group 2 mkey) in
      let p := if eqb key "task" then set_task rest p
               else if truthy rest then append_to key rest p
               else p in
      (p, Some key)
  | None =>
      match (if in_list_section current
             then rmatch_at_start item_re line_in else None) with
      | Some mitem =>
          (append_to (default [] current) (strip (group 1 mitem)) p, current)
      | None =>
          if bool_decide (current = Some "task") && truthy (strip line_in) then
            let task := strip (or_str (task p) []) in
            let joiner := if truthy task then " " else [] in
            (set_task (task ++ joiner ++ strip line_in) p, current)
          else (p, current)
      end
  end.

(** The inner [while] of the fenced block. It stops at the end of the
    input or, by [break], at a line that starts with three backticks, which
    it leaves in place. *)
Fixpoint fence_body (lines : list str) (p : prompts) (current : option str)
    : prompts * list str :=
  match lines with
  | [] => (p, [])
  | l :: rest =>
      let raw := rstrip_nl l in
      if startswith "```" (strip raw) then (p, lines)
      else let '(p', current') := fence_line p current raw in
           fence_body rest p' current'
  end.

(** One turn of the outer [while], at the line [line0] followed by [rest]:
    the lines still to read and the new state. *)
Definition md_step (resources : table) (line0 : str) (rest : list str)
    (st : rstate) : list str * rstate :=
  let line := rstrip_nl line0 in
  if eqb (strip line) ":::teacher" then
    let st := close_bq (close_lists st) in
    (rest, if negb (in_teacher st) then set_teacher true (emit teacher_open st) else st)
  else if eqb (strip line) ":::" then
    let st := close_bq (close_lists st) in
    (rest, if in_teacher st then set_teacher false (emit "</div>" st) else st)
  else
  match rmatch_at_start fence_re (strip line) with
  | Some mfence =>
      let st := close_bq (close_lists st) in
      let rid := group 1 mfence in
      let '(p, rest') := fence_body rest no_prompts None in
      let combined :=
        "<div class='video-stack'>"
        ++ video_block rid resources
        ++ local_prompts_block p resources
        ++ "</div>" in
      let st := emit combined st in
      match rest' with
      | l :: rest'' => if startswith "```" (strip l) then (rest'', st) else (rest', st)
      | [] => (rest', st)
      end
  | None =>
  match rmatch_at_start video_ref_re (strip line) with
  | Some mvid =>
      let st := close_bq (close_lists st) in
      (rest, emit (video_block (group 1 mvid) resources) st)
  | None =>
  if negb (truthy (strip line)) then (rest, close_bq (close_lists st))
  else
  match rmatch_at_start heading_re (strip line) with
  | Some mh =>
      let st := close_bq (close_lists st) in
      (rest, emit (heading_html mh) st)
  | None =>
  if startswith ">" (lstrip line) then
    let st := close_lists st in
    let st := if negb (in_bq st) then set_bq true (emit "<blockquote>" st) else st in
    let txt := inline_format
                 (expand_inline_refs (lstrip (drop 1 (lstrip line))) resources) in
    (rest, emit ("<p>" ++ txt ++ "</p>") st)
  else
  let st := close_bq st in
  match rmatch_at_start ol_re (strip line) with
  | Some mol =>
      let st := if in_ul st then set_ul false (emit "</ul>" st) else st in
      let st := if negb (in_ol st) then set_ol true (emit "<ol>" st) else st in
      let txt := inline_format (expand_inline_refs (strip (group 2 mol)) resources) in
      (rest, emit ("<li>" ++ txt ++ "</li>") st)
  | None =>
  match rmatch_at_start ul_re (strip line) with
  | Some mul =>
      let st := if in_ol st then set_ol false (emit "</ol>" st) else st in
      let st := if negb (in_ul st) then set_ul true (emit "<ul>" st) else st in
      let txt := inline_format (expand_inline_refs (strip (group 1 mul)) resources) in
      (rest, emit ("<li>" ++ txt ++ "</li>") st)
  | None =>
      let st := close_lists st in
      let txt := inline_format (expand_inline_refs (strip line) resources) in
      (rest, emit ("<p>" ++ txt ++ "</p>") st)
  end end end end end.

(** [n] turns of the outer [while] (fewer if the input ends before). *)
Fixpoint md_run (n : nat) (resources : table) (lines : list str) (st : rstate)
    : list str * rstate :=
  match n, lines with
  | S n', line :: rest =>
      let '(lines', st') := md_step resources line rest st in
      md_run n' resources lines' st'
  | _, _ => (lines, st)
  end.

(** [md_to_html(md, resources)]. Every turn drops at least one line, so
    [len(lines)] turns reach the end; [None] would say they did not. *)
Definition md_to_html (md : str) (resources : table) : option str :=
  let lines := splitlines md in
  match md_run (length lines) resources lines init with
  | ([], st) => Some (join nl (out (finish st)))
  | (_ :: _, _) => None
  end.

End Build.

(** ** build_v3.py *)

Module BuildV3.

Import Py Re Common Render.

(** The body of [for raw in lines]. *)
Definition md_line (resources : table) (raw : str) (st : rstate) : rstate :=
  let line := rstrip_nl raw in
  if eqb (strip line) ":::teacher" then
    let st := close_bq (close_lists st) in
    if negb (in_teacher st) then set_teacher true (emit teacher_open st) else st
  else if eqb (strip line) ":::" then
    let st := close_bq (close_lists st) in
    if in_teacher st then set_teacher false (emit "</div>" st) else st
  else
  match rmatch_at_start video_ref_re (strip line) with
  | Some mvid =>
      let st := close_bq (close_lists st) in
      emit (video_block (group 1 mvid) resources) st
  | None =>
  if negb (truthy (strip line)) then close_bq (close_lists st)
  else
  match rmatch_at_start heading_re (strip line) with
  | Some mh =>
      let st := close_bq (close_lists st) in
      emit (heading_html mh) st
  | None =>
  if startswith ">" (lstrip line) then
    let st := close_lists st in
    let st := if negb (in_bq st) then set_bq true (emit "<blockquote>" st) else st in
    let txt := inline_format
                 (expand_inline_refs (lstrip (drop 1 (lstrip line))) resources) in
    emit ("<p>" ++ txt ++ "</p>") st
  else
  let st := close_bq st in
  match rmatch_at_start ol_re (strip line) with
  | Some mol =>
      let st := if in_ul st then set_ul false (emit "</ul>" st) else st in
      let st := if negb (in_ol st) then set_ol true (emit "<ol>" st) else st in
      let txt := inline_format (expand_inline_refs (strip (group 2 mol)) resources) in
      emit ("<li>" ++ txt ++ "</li>") st
  | None =>
  match rmatch_at_start ul_re (strip line) with
  | Some mul =>
      let st := if in_ol st then set_ol false (emit "</ol>" st) else st in
      let st := if negb (in_ul st) then set_ul true (emit "<ul>" st) else st in
      let txt := inline_format (expand_inline_refs (strip (group 1 mul)) resources) in
      emit ("<li>" ++ txt ++ "</li>") st
  | None =>
      let st := close_lists st in
      let txt := inline_format (expand_inline_refs (strip line) resources) in
      emit ("<p>" ++ txt ++ "</p>") st
  end end end end.

Definition md_to_html (md : str) (resources : table) : str :=
  let lines := splitlines md in
  let st := fold_left (fun st raw => md_line resources raw st) lines init in
  join nl (out (finish st)).

End BuildV3.

(** ** Notions the statements use *)

Module Props.

Import Py Re Common Render.

(** No character of [s] is one of [chars]. *)
Definition free_of (chars : str) (s : str) : Prop :=
  Forall (fun c => one_of chars c = false) s.

(** Every character of [s] is white space. *)
Definition blank (s : str) : Prop := Forall (fun c => is_space c = true) s.

(** [s] could be a line of a document: it holds no line break. *)
Definition one_line (s : str) : Prop := Forall (fun c => is_linebreak c = false) s.

(** A string that neither starts nor ends with white space. *)
Definition tight (s : str) : Prop := strip s = s.

(** The three attribute keys of a declaration. *)
Definition attr_key (key : str) : Prop :=
  key = "label" \/ key = "url" \/ key = "desc".

(** The line declares a resource of kind [rtype] and id [rid]. *)
Definition declares (line rtype rid : str) : Prop :=
  exists m, rmatch_at_start decl_re (rstrip line) = Some m
            /\ group 1 m = rtype /\ group 2 m = rid.

(** The line ends the record before it: the inner loop breaks at it. *)
Definition starts_decl (line : str) : bool :=
  match rmatch_at_start decl_start_re (rstrip line) with
  | Some _ => true
  | None => false
  end.

(** The record a declaration of kind [rtype] holds after the lines [body]. *)
Definition record_of (rtype : str) (body : list str) : item :=
  fold_left (fun it l => apply_attr it (rstrip l)) body (new_item rtype).

(** Two resources that differ at most in their ["type"] entry, and two
    tables whose resources do. *)
Definition same_but_type (a b : item) : Prop :=
  forall key, key <> "type" -> a !! key = b !! key.

Definition tables_same_but_type (r1 r2 : table) : Prop :=
  forall rid,
    match r1 !! rid, r2 !! rid with
    | Some a, Some b => same_but_type a b
    | None, None => True
    | _, _ => False
    end.

(** The line opens a fenced video block in [build.py]. *)
Definition opens_fence (line : str) : bool :=
  match rmatch_at_start Build.fence_re (strip (rstrip_nl line)) with
  | Some _ => true
  | None => false
  end.

(** The prompts and the current section after the body lines [raws] of a
    fenced block, none of them the closing fence. *)
Definition fence_after (raws : list str) : Build.prompts * option str :=
  fold_left (fun pc raw => Build.fence_line (fst pc) (snd pc) raw) raws
            (Build.no_prompts, None).

(** At most one of the two list flags is set. *)
Definition lists_exclusive (st : rstate) : Prop :=
  in_ul st && in_ol st = false.

End Props.

(** ** Properties *)

Import Py Re Common Render Props.

(** *** The matcher on known cases

    What Python returns for these calls is documented behaviour of [re],
    [str] and [html]; the model returns the same. *)

Section KnownCases.

Example sub_empty_matches :
  sub (star (chr "x")) (fun _ => "-") "abxd" = "-a-b--d-".
Proof. reflexivity. Qed.

Example sub_must_advance :
  sub (Alt (Lit []) (Lit "a")) (fun _ => "-") "a" = "---".
Proof. reflexivity. Qed.

Example search_lazy_anchor :
  option_map m_text (search anchor_re "x <a href='u'>one</a> and <a>two</a>")
  = Some "<a href='u'>one</a>".
Proof. reflexivity. Qed.

Example heading_at_most_four :
  rmatch_at_start heading_re "##### five" = None
  /\ option_map (group 1) (rmatch_at_start heading_re "#### four") = Some "####".
Proof. split; reflexivity. Qed.

Example splitlines_breaks :
  splitlines ("a" ++ ["013"%char; "010"%char] ++ "b" ++ nl ++ nl ++ "c" ++ nl)
  = ["a"; "b"; []; "c"].
Proof. reflexivity. Qed.

Example html_escape_all : html_escape ("<a href='x'>&" ++ dq)
                          = "&lt;a href=&#x27;x&#x27;&gt;&amp;&quot;".
Proof. reflexivity. Qed.

Example inline_format_nested : inline_format "***a***" = "<em><strong>a</strong></em>".
Proof. vm_compute. reflexivity. Qed.

End KnownCases.

(** *** Strings *)

Section StringFacts.

Lemma chr_eqb_eq a b : chr_eqb a b = true <-> a = b.
Proof. apply Ascii.eqb_eq. Qed.

Lemma chr_eqb_refl a : chr_eqb a a = true.
Proof. by apply chr_eqb_eq. Qed.

Lemma eqb_true s t : eqb s t = true <-> s = t.
Proof. unfold eqb. apply bool_decide_eq_true. Qed.

Lemma strip_prefix_app p s : strip_prefix p (p ++ s) = Some s.
Proof. induction p as [|a p IH]; simpl; [done|]. by rewrite chr_eqb_refl. Qed.

Lemma strip_prefix_Some p s t : strip_prefix p s = Some t -> s = p ++ t.
Proof.
  revert s. induction p as [|a p IH]; intros [|b s]; simpl; try congruence.
  destruct (chr_eqb a b) eqn:E; [|done].
  apply chr_eqb_eq in E as ->. intros H. by rewrite (IH _ H).
Qed.

End StringFacts.

(** *** The missing-bookmark fragments (C1) *)

(** C1. For an id absent from the table, and for an id whose resource has
    the empty url, [video_block] returns the "Missing bookmark" fragment
    around the escaped id and [inline_link] the code span
    [Missing:<escaped id>]. Both are total functions: no input makes them
    fail. *)
Theorem missing_resource_fragments (rid : str) (resources : table) :
  resources !! rid = None
  \/ (exists it, resources !! rid = Some it /\ it !! "url" = Some []) ->
  video_block rid resources
  = "<div class='video'><div class='video-top'><div class='video-title'><span class='tag'>Video</span> Missing bookmark: <code>"
    ++ html_escape rid ++ "</code></div></div></div>"
  /\ inline_link rid resources = "<code>Missing:" ++ html_escape rid ++ "</code>".
Proof.
  intros H.
  assert (Hunusable : negb (truthy_item (resources !! rid))
                      || negb (truthy_get (resources !! rid) "url") = true).
  { destruct H as [-> | (it & -> & Hurl)]; [done|].
    unfold truthy_get. change (Some it ≫= (.!! "url")) with (it !! "url").
    rewrite Hurl. apply orb_true_r. }
  unfold video_block, inline_link. by rewrite Hunusable.
Qed.

Lemma missing_resource_fragments_witness :
  video_block "v<2" ∅
  = "<div class='video'><div class='video-top'><div class='video-title'><span class='tag'>Video</span> Missing bookmark: <code>"
    ++ html_escape "v<2" ++ "</code></div></div></div>"
  /\ inline_link "v<2" ∅ = "<code>Missing:" ++ html_escape "v<2" ++ "</code>".
Proof.
  apply (missing_resource_fragments "v<2" ∅). left. reflexivity.
Defined.

(** *** The list flags (C2) *)

Section ListFlags.

Ltac flags :=
  cbn [snd fst in_ul in_ol in_bq in_teacher out close_lists close_bq emit
       set_ul set_ol set_bq set_teacher negb andb orb finish].

Lemma md_step_exclusive resources line rest st :
  lists_exclusive st -> lists_exclusive (snd (Build.md_step resources line rest st)).
Proof.
  unfold lists_exclusive. destruct st as [o u l b t]. flags. intros H.
  unfold Build.md_step.
  repeat (case_match; flags; try done);
    destruct u, l, b, t; flags; try done; discriminate.
Qed.

Lemma md_run_exclusive n resources lines st :
  lists_exclusive st -> lists_exclusive (snd (Build.md_run n resources lines st)).
Proof.
  revert lines st. induction n as [|n IH]; intros [|line rest] st H; simpl; try done.
  destruct (Build.md_step resources line rest st) as [lines' st'] eqn:E.
  apply IH. by rewrite <- (f_equal snd E : _ = st'); apply md_step_exclusive.
Qed.

End ListFlags.

(** C2. After any number of turns of the block-level loop of [build.py], on
    any document, at most one of [in_ul] and [in_ol] is set; and the
    document of the two lines [- a] and [1. b] renders as an unordered list
    closed before the ordered list opens. *)
Theorem list_flags_never_both :
  (forall (md : str) (resources : table) (n : nat),
      lists_exclusive (snd (Build.md_run n resources (splitlines md) init)))
  /\ (forall resources : table,
        Build.md_to_html ("- a" ++ nl ++ "1. b") resources
        = Some (join nl ["<ul>"; "<li>a</li>"; "</ul>"; "<ol>"; "<li>b</li>"; "</ol>"])).
Proof.
  split.
  - intros md resources n. by apply md_run_exclusive.
  - intros resources. vm_compute. reflexivity.
Qed.

(** *** Stripping *)

Section Stripping.

Variable p : ascii -> bool.

Lemma lstrip_with_split s :
  exists w, s = w ++ lstrip_with p s /\ Forall (fun c => p c = true) w.
Proof.
  induction s as [|c s (w & Hs & Hw)]; simpl.
  - by exists [].
  - destruct (p c) eqn:E.
    + exists (c :: w). split; [simpl; congruence | by constructor].
    + by exists [].
Qed.

Lemma lstrip_with_head s c t : lstrip_with p s = c :: t -> p c = false.
Proof.
  induction s as [|d s IH]; simpl; [done|].
  destruct (p d) eqn:E; [done|]. by intros [= -> _].
Qed.

Lemma lstrip_with_skip w s :
  Forall (fun c => p c = true) w -> lstrip_with p (w ++ s) = lstrip_with p s.
Proof. induction 1 as [|c w Hc _ IH]; simpl; [done|]. by rewrite Hc. Qed.

Lemma lstrip_with_all w :
  Forall (fun c => p c = true) w -> lstrip_with p w = [].
Proof. intros H. rewrite <- (app_nil_r w). by rewrite lstrip_with_skip. Qed.

Lemma lstrip_with_keep c t : p c = false -> lstrip_with p (c :: t) = c :: t.
Proof. simpl. by intros ->. Qed.

Lemma rstrip_with_split s :
  exists w, s = rstrip_with p s ++ w /\ Forall (fun c => p c = true) w.
Proof.
  unfold rstrip_with. destruct (lstrip_with_split (rev s)) as (w & Hs & Hw).
  exists (rev w). split.
  - rewrite <- rev_app_distr, <- Hs. by rewrite rev_involutive.
  - by apply Forall_rev.
Qed.

Lemma rstrip_with_last s t c : rstrip_with p s = t ++ [c] -> p c = false.
Proof.
  unfold rstrip_with. intros H. apply (f_equal (@rev ascii)) in H.
  rewrite rev_involutive, rev_app_distr in H. simpl in H.
  by apply lstrip_with_head in H.
Qed.

Lemma rstrip_with_skip s w :
  Forall (fun c => p c = true) w -> rstrip_with p (s ++ w) = rstrip_with p s.
Proof.
  intros H. unfold rstrip_with. rewrite rev_app_distr.
  rewrite lstrip_with_skip; [done | by apply Forall_rev].
Qed.

Lemma rstrip_with_keep t c : p c = false -> rstrip_with p (t ++ [c]) = t ++ [c].
Proof.
  intros H. unfold rstrip_with. rewrite rev_app_distr. simpl. rewrite H.
  simpl. by rewrite rev_involutive.
Qed.

End Stripping.

Section Strip.

Lemma strip_split v :
  exists w1 w2, v = w1 ++ strip v ++ w2 /\ blank w1 /\ blank w2.
Proof.
  unfold strip, lstrip, rstrip.
  destruct (rstrip_with_split is_space v) as (w2 & Hv & H2).
  destruct (lstrip_with_split is_space (rstrip_with is_space v)) as (w1 & Hr & H1).
  exists w1, w2. split; [|done].
  rewrite app_assoc, <- Hr. exact Hv.
Qed.

Lemma strip_head v c t : strip v = c :: t -> is_space c = false.
Proof. apply lstrip_with_head. Qed.

Lemma strip_last v t c : strip v = t ++ [c] -> is_space c = false.
Proof.
  unfold strip, lstrip, rstrip. intros H.
  destruct (lstrip_with_split is_space (rstrip_with is_space v)) as (w & Hr & _).
  rewrite H, app_assoc in Hr. by apply rstrip_with_last in Hr.
Qed.

Lemma strip_ends s c d t t' :
  s = c :: t -> s = t' ++ [d] -> is_space c = false -> is_space d = false ->
  strip s = s.
Proof.
  intros Hc Hd Ec Ed. unfold strip, lstrip, rstrip.
  rewrite Hd at 1. rewrite rstrip_with_keep by done. rewrite <- Hd, Hc.
  by apply lstrip_with_keep.
Qed.

Lemma nonempty_ends (s : str) :
  s <> [] -> (exists c t, s = c :: t) /\ (exists t d, s = t ++ [d]).
Proof.
  intros H. split.
  - destruct s; [done | eauto].
  - destruct (exists_last H) as (t & d & ->). eauto.
Qed.

Lemma strip_tight v : tight (strip v).
Proof.
  unfold tight. destruct (decide (strip v = [])) as [-> | Hne]; [done|].
  destruct (nonempty_ends _ Hne) as [(c & t & Hc) (t' & d & Hd)].
  eapply strip_ends; eauto using strip_head, strip_last.
Qed.

Lemma tight_join a m b :
  tight a -> tight b -> a <> [] -> b <> [] -> tight (a ++ m ++ b).
Proof.
  unfold tight. intros Ha Hb Na Nb.
  destruct (nonempty_ends _ Na) as [(c & t & Hc) _].
  destruct (nonempty_ends _ Nb) as [_ (t' & d & Hd)].
  apply (strip_ends _ c d (t ++ m ++ b) (a ++ m ++ t')).
  - by rewrite Hc.
  - rewrite Hd at 1. by rewrite !app_assoc.
  - apply (strip_head a c t). by rewrite Ha.
  - apply (strip_last b t' d). by rewrite Hb.
Qed.

(** [rstrip] of a line that ends in a value with something left of it
    after stripping. *)
Lemma rstrip_value pre v :
  strip v <> [] ->
  exists w1, rstrip (pre ++ v) = pre ++ w1 ++ strip v /\ blank w1.
Proof.
  intros Hne. destruct (strip_split v) as (w1 & w2 & Hv & H1 & H2).
  exists w1. split; [|done].
  destruct (nonempty_ends _ Hne) as [_ (t & d & Hd)].
  rewrite Hv at 1. unfold rstrip.
  replace (pre ++ w1 ++ strip v ++ w2) with ((pre ++ w1 ++ strip v) ++ w2)
    by by rewrite <- !app_assoc.
  rewrite rstrip_with_skip by done.
  rewrite Hd. replace (pre ++ w1 ++ t ++ [d]) with ((pre ++ w1 ++ t) ++ [d])
    by by rewrite <- !app_assoc.
  apply rstrip_with_keep. by apply (strip_last v t d).
Qed.

(** [rstrip] of a line that ends in white space after a last character
    that is none. *)
Lemma rstrip_blank_tail pre c w :
  is_space c = false -> blank w -> rstrip (pre ++ c :: w) = pre ++ [c].
Proof.
  intros Hc Hw. unfold rstrip.
  replace (pre ++ c :: w) with ((pre ++ [c]) ++ w) by by rewrite <- app_assoc.
  rewrite rstrip_with_skip by done. by apply rstrip_with_keep.
Qed.

End Strip.

(** *** The matcher *)

Section MatcherFacts.

Context {A : Type}.
Implicit Types (k : mstate -> option A) (kr : str -> str -> option A).

Lemma run_lit_app s r sn c k :
  run (Lit s) k (MState sn (s ++ r) c) = k (MState (rev s ++ sn) r c).
Proof. simpl. by rewrite strip_prefix_app. Qed.

(** A greedy repetition without an upper bound first takes every character
    it can; if the continuation accepts there, that is the match. *)
Lemma rep_greedy_reach p kr w : forall lo sn r x,
  Forall (fun c => p c = true) w ->
  opt_head_is p r = false ->
  lo <= length w ->
  kr (rev w ++ sn) r = Some x ->
  rep p true lo None kr sn (w ++ r) = Some x.
Proof.
  induction w as [|c w IH]; intros lo sn r x Hw Hr Hlo Hk.
  - simpl in *. assert (lo = 0) as -> by lia.
    destruct r as [|d r]; simpl in *; [done|]. by rewrite Hr.
  - apply Forall_cons in Hw as [Hc Hw]. simpl in *. rewrite Hc. simpl.
    rewrite (IH (pred lo) (c :: sn) r x); try done; [lia|].
    by rewrite <- app_assoc in Hk.
Qed.

(** If the continuation refuses every position in front of a character of
    the class, the repetition has one way only: to take them all. *)
Lemma rep_greedy_exact p kr w : forall lo sn r,
  Forall (fun c => p c = true) w ->
  opt_head_is p r = false ->
  lo <= length w ->
  (forall sn' c rs', p c = true -> kr sn' (c :: rs') = None) ->
  rep p true lo None kr sn (w ++ r) = kr (rev w ++ sn) r.
Proof.
  induction w as [|c w IH]; intros lo sn r Hw Hr Hlo Hk.
  - simpl in *. assert (lo = 0) as -> by lia.
    destruct r as [|d r]; simpl in *; [by destruct (kr sn [])|].
    rewrite Hr. simpl. by destruct (kr sn (d :: r)).
  - apply Forall_cons in Hw as [Hc Hw]. simpl in *. rewrite Hc. simpl.
    rewrite (IH (pred lo) (c :: sn) r); try done; [|lia].
    rewrite <- app_assoc. simpl.
    destruct (kr (rev w ++ c :: sn) r); [done|].
    destruct lo; [|done]. by apply Hk.
Qed.

(** A repetition that must take a character fails where none of the class
    stands. *)
Lemma rep_needs_one p g kr lo hi sn r :
  opt_head_is p r = false -> 0 < lo -> rep p g lo hi kr sn r = None.
Proof.
  intros Hr Hlo. destruct lo; [lia|].
  destruct r as [|d r], g; simpl in *; try done; by rewrite Hr.
Qed.

(** The same facts one level up, for [run]. *)

Lemma run_seq r1 r2 k st : run (r1 ⋅ r2) k st = run r1 (run r2 k) st.
Proof. done. Qed.

Lemma run_alt r1 r2 k st :
  run (Alt r1 r2) k st
  = match run r1 k st with Some x => Some x | None => run r2 k st end.
Proof. done. Qed.

Lemma run_bol r cs k : run Bol k (MState [] r cs) = k (MState [] r cs).
Proof. done. Qed.

Lemma run_eol_end sn cs k : run Eol k (MState sn [] cs) = k (MState sn [] cs).
Proof. done. Qed.

Lemma run_group n r k st :
  run (Group n r) k st
  = run r (fun st' => k (MState (seen st') (rest st')
                                ((n, consumed st st') :: caps st'))) st.
Proof. done. Qed.

Lemma run_lit_mismatch a s c r sn cs k :
  chr_eqb a c = false -> run (Lit (a :: s)) k (MState sn (c :: r) cs) = None.
Proof. intros H. simpl. by rewrite H. Qed.

Lemma run_lit_end a s sn cs k : run (Lit (a :: s)) k (MState sn [] cs) = None.
Proof. done. Qed.

Lemma run_rep_reach p lo k w r sn cs x :
  Forall (fun c => p c = true) w ->
  opt_head_is p r = false ->
  lo <= length w ->
  k (MState (rev w ++ sn) r cs) = Some x ->
  run (Rep p lo None true) k (MState sn (w ++ r) cs) = Some x.
Proof. intros. simpl. by apply rep_greedy_reach. Qed.

Lemma run_rep_reach_all p lo k w sn cs x :
  Forall (fun c => p c = true) w ->
  lo <= length w ->
  k (MState (rev w ++ sn) [] cs) = Some x ->
  run (Rep p lo None true) k (MState sn w cs) = Some x.
Proof.
  intros. rewrite <- (app_nil_r w) at 1. by apply run_rep_reach.
Qed.

Lemma run_rep_exact p lo k w r sn cs :
  Forall (fun c => p c = true) w ->
  opt_head_is p r = false ->
  lo <= length w ->
  (forall sn' c rs', p c = true -> k (MState sn' (c :: rs') cs) = None) ->
  run (Rep p lo None true) k (MState sn (w ++ r) cs)
  = k (MState (rev w ++ sn) r cs).
Proof. intros. simpl. by apply rep_greedy_exact. Qed.

Lemma run_rep_needs_one p g lo hi k sn r cs :
  opt_head_is p r = false -> 0 < lo ->
  run (Rep p lo hi g) k (MState sn r cs) = None.
Proof. intros. simpl. by apply rep_needs_one. Qed.

Lemma run_star_end p g hi k sn cs :
  run (Rep p 0 hi g) k (MState sn [] cs) = k (MState sn [] cs).
Proof. destruct g; simpl; by destruct (k _). Qed.

End MatcherFacts.

Lemma consumed_app sn sn' c c' a b :
  consumed (MState sn (a ++ b) c) (MState sn' b c') = a.
Proof.
  unfold consumed. simpl. rewrite length_app.
  replace (length a + length b - length b) with (length a) by lia.
  by rewrite take_app_length.
Qed.

Lemma consumed_all sn sn' c c' a :
  consumed (MState sn a c) (MState sn' [] c') = a.
Proof. rewrite <- (app_nil_r a) at 1. apply consumed_app. Qed.

(** *** Attribute lines of a declaration (C5, C10) *)

Section AttributeLines.

Lemma space_is_not c a : is_space c = true -> is_space a = false -> chr_eqb a c = false.
Proof.
  intros Hc Ha. destruct (chr_eqb a c) eqn:E; [|done].
  apply chr_eqb_eq in E as ->. congruence.
Qed.

Lemma dot_of_one_line c : is_linebreak c = false -> dot c = true.
Proof.
  intros H. unfold dot, not_in, one_of. simpl.
  destruct (chr_eqb c "010") eqn:E; [|done].
  apply chr_eqb_eq in E as ->. discriminate.
Qed.

Lemma one_line_dots s : one_line s -> Forall (fun c => dot c = true) s.
Proof. intros H. eapply Forall_impl; [exact H|]. apply dot_of_one_line. Qed.

Lemma head_of_tight core : tight core -> opt_head_is is_space core = false.
Proof.
  intros H. destruct core as [|c t]; [done|]. simpl.
  by apply (strip_head (c :: t) c t).
Qed.

Lemma key_alt_exact {A} key (k : mstate -> option A) sn r cs :
  attr_key key ->
  run (Alt (Lit "label") (Alt (Lit "url") (Lit "desc"))) k (MState sn (key ++ r) cs)
  = k (MState (rev key ++ sn) r cs).
Proof. intros [-> | [-> | ->]]; simpl; by destruct (k _). Qed.

(** An attribute line at the first column, its value neither empty nor
    starting or ending with white space: the pattern matches, with the key
    and the value as its groups. *)
Lemma kv_match key ws w1 core :
  attr_key key -> blank ws -> blank w1 ->
  tight core -> core <> [] -> one_line core ->
  exists m, rmatch_at_start kv_re (key ++ ws ++ ":" ++ w1 ++ core) = Some m
            /\ group 1 m = key /\ group 2 m = core.
Proof.
  intros Hkey Hws Hw1 Htight Hne Hline.
  unfold rmatch_at_start, attempt, kv_re, star, plus.
  eexists. split.
  - rewrite run_seq, run_bol, run_seq, run_group, key_alt_exact by done.
    cbn [seen rest caps].
    rewrite run_seq, run_rep_exact; [ | done | done | lia | ].
    2:{ intros sn' c rs' Hc. rewrite run_seq.
        apply run_lit_mismatch. by apply space_is_not. }
    rewrite run_seq, run_lit_app, run_seq.
    apply run_rep_reach; [done | by apply head_of_tight | lia | ].
    rewrite run_seq, run_group.
    apply run_rep_reach_all; [by apply one_line_dots | destruct core; simpl; [done | lia] | ].
    cbn [seen rest caps].
    rewrite run_seq, run_star_end, run_eol_end.
    cbn [andb]. reflexivity.
  - cbn [group lookup_cap m_caps Nat.eqb default fst snd].
    by rewrite consumed_app, consumed_all.
Qed.

(** A bare key, with or without white space before the colon. *)
Lemma kv_no_value key ws :
  attr_key key -> blank ws -> rmatch_at_start kv_re (key ++ ws ++ ":") = None.
Proof.
  intros Hkey Hws.
  change (key ++ ws ++ ":") with (key ++ ws ++ ":" ++ []).
  unfold rmatch_at_start, attempt, kv_re, star, plus.
  rewrite run_seq, run_bol, run_seq, run_group, key_alt_exact by done.
  cbn [seen rest caps].
  rewrite run_seq, run_rep_exact; [ | done | done | lia | ].
  2:{ intros sn' c rs' Hc. rewrite run_seq.
      apply run_lit_mismatch. by apply space_is_not. }
  rewrite run_seq, run_lit_app, run_seq, run_star_end, run_seq, run_group.
  apply run_rep_needs_one; [done | lia].
Qed.

(** A line that starts with white space matches neither pattern of the
    inner loop, and neither does the empty line. *)
Lemma kv_indented c s :
  is_space c = true -> rmatch_at_start kv_re (c :: s) = None.
Proof.
  intros Hc. unfold rmatch_at_start, attempt, kv_re.
  rewrite run_seq, run_bol, run_seq, run_group.
  rewrite run_alt, run_lit_mismatch by by apply space_is_not.
  rewrite run_alt, run_lit_mismatch by by apply space_is_not.
  apply run_lit_mismatch. by apply space_is_not.
Qed.

Lemma decl_start_indented c s :
  is_space c = true -> rmatch_at_start decl_start_re (c :: s) = None.
Proof.
  intros Hc. unfold rmatch_at_start, attempt, decl_start_re.
  rewrite run_seq, run_bol, run_seq.
  apply run_lit_mismatch. by apply space_is_not.
Qed.

Lemma rstrip_indented c s :
  rstrip (c :: s) = [] \/ exists s', rstrip (c :: s) = c :: s'.
Proof.
  destruct (rstrip_with_split is_space (c :: s)) as (w & Hs & _).
  fold (rstrip (c :: s)) in Hs.
  destruct (rstrip (c :: s)) as [|d s']; [by left | right].
  simpl in Hs. injection Hs as Hcd _. subst d. eauto.
Qed.

Lemma indented_ignored c s it :
  is_space c = true ->
  rmatch_at_start decl_start_re (rstrip (c :: s)) = None
  /\ apply_attr it (rstrip (c :: s)) = it.
Proof.
  intros Hc. unfold apply_attr.
  destruct (rstrip_indented c s) as [-> | (s' & ->)]; [done|].
  by rewrite decl_start_indented, kv_indented.
Qed.

(** No attribute line starts a declaration. *)
Lemma decl_start_key key r :
  attr_key key -> rmatch_at_start decl_start_re (key ++ r) = None.
Proof. by intros [-> | [-> | ->]]. Qed.

Lemma one_line_strip v : one_line v -> one_line (strip v).
Proof.
  intros H. destruct (strip_split v) as (w1 & w2 & Hv & _).
  unfold one_line in *. rewrite Hv in H.
  by apply Forall_app in H as [_ [H _]%Forall_app].
Qed.

Lemma scan_item_attr key ws v it rest :
  attr_key key -> blank ws -> one_line v -> strip v <> [] ->
  scan_item ((key ++ ws ++ ":" ++ v) :: rest) it
  = scan_item rest (<[key := strip v]> it).
Proof.
  intros Hkey Hws Hv Hne. cbn [scan_item].
  destruct (rstrip_value (key ++ ws ++ ":") v Hne) as (w1 & Hr & Hw1).
  rewrite <- !app_assoc in Hr. rewrite Hr, decl_start_key by done.
  unfold apply_attr.
  destruct (kv_match key ws w1 (strip v)) as (m & -> & -> & ->);
    auto using strip_tight, one_line_strip.
  by rewrite strip_tight.
Qed.

End AttributeLines.

(** C5, as the code has it. In the inner loop of [parse_bookmarks], which
    reads the lines after a declaration into the current record [it]: an
    attribute line [label: v], [url: v] or [desc: v] that starts at the
    first column sets that attribute of the record to the value with the
    white space around it removed; a line that starts with white space,
    whatever follows, leaves the record as it is. *)
Theorem attribute_line_needs_first_column :
  (forall key ws v it rest,
      attr_key key -> blank ws -> one_line v -> strip v <> [] ->
      scan_item ((key ++ ws ++ ":" ++ v) :: rest) it
      = scan_item rest (<[key := strip v]> it))
  /\ (forall c line it rest,
        is_space c = true ->
        scan_item ((c :: line) :: rest) it = scan_item rest it).
Proof.
  split.
  - intros. by apply scan_item_attr.
  - intros c line it rest Hc. cbn [scan_item].
    by destruct (indented_ignored c line it Hc) as [-> ->].
Qed.

Lemma attribute_line_needs_first_column_witness :
  scan_item ["url" ++ " " ++ ":" ++ " https://x "] (new_item "video")
  = scan_item [] (<["url" := strip " https://x "]> (new_item "video"))
  /\ scan_item [" "%char :: "url: https://x"] (new_item "video")
     = scan_item [] (new_item "video").
Proof.
  split.
  - apply (proj1 attribute_line_needs_first_column
                 "url" " " " https://x " (new_item "video") []).
    + right. left. reflexivity.
    + unfold blank. repeat constructor.
    + unfold one_line. repeat constructor.
    + vm_compute. discriminate.
  - apply (proj2 attribute_line_needs_first_column
                 " "%char "url: https://x" (new_item "video") []).
    reflexivity.
Defined.

(** C5 as stated fails: after [@video v1], the indented line
    [  url: https://x] does not set the url of the record. *)
Lemma indented_attribute_not_set :
  ~ ((parse_bookmarks ("@video v1" ++ nl ++ "  url: https://x") ≫= (.!! "v1"))
       ≫= (.!! "url") = Some (strip "https://x")).
Proof. vm_compute. discriminate. Qed.

(** C10. Inside an open declaration, an attribute line whose value is
    empty or white space only does not match the key-value pattern, and the
    record keeps every attribute as it was. *)
Theorem empty_value_keeps_attribute (key ws1 ws2 : str) (it : item) (rest : list str) :
  attr_key key -> blank ws1 -> blank ws2 ->
  rmatch_at_start kv_re (rstrip (key ++ ws1 ++ ":" ++ ws2)) = None
  /\ scan_item ((key ++ ws1 ++ ":" ++ ws2) :: rest) it = scan_item rest it.
Proof.
  intros Hkey H1 H2.
  assert (Hr : rstrip (key ++ ws1 ++ ":" ++ ws2) = key ++ ws1 ++ ":").
  { rewrite app_assoc. change (":" ++ ws2) with (":"%char :: ws2).
    rewrite rstrip_blank_tail by done. by rewrite <- app_assoc. }
  cbn [scan_item]. unfold apply_attr.
  by rewrite Hr, decl_start_key, kv_no_value.
Qed.

Lemma empty_value_keeps_attribute_witness :
  rmatch_at_start kv_re (rstrip ("url" ++ [] ++ ":" ++ "   ")) = None
  /\ scan_item [("url" ++ [] ++ ":" ++ "   ")] (new_item "video")
     = scan_item [] (new_item "video").
Proof.
  apply (empty_value_keeps_attribute "url" [] "   " (new_item "video") []).
  - right. left. reflexivity.
  - constructor.
  - unfold blank. repeat constructor.
Defined.


(** *** Text without markup (C4) *)

Section PlainText.

Lemma free_of_chr chars s a :
  free_of chars s -> In a chars -> Forall (fun c => chr_eqb a c = false) s.
Proof.
  intros Hs Ha. eapply Forall_impl; [exact Hs|]. intros c Hc. simpl in Hc.
  destruct (chr_eqb a c) eqn:E; [|done].
  apply chr_eqb_eq in E as ->. unfold one_of in Hc.
  assert (existsb (chr_eqb c) chars = true); [|congruence].
  apply existsb_exists. exists c. split; [done | apply chr_eqb_refl].
Qed.

Lemma replace_absent a new s :
  Forall (fun c => chr_eqb a c = false) s -> replace [a] new s = s.
Proof.
  unfold replace. induction 1 as [|c s Hc _ IH]; [done|].
  cbn [replace_from]. unfold startswith. cbn [strip_prefix]. rewrite Hc.
  by rewrite IH.
Qed.

Lemma html_escape_plain s : free_of ("&<>'" ++ dq) s -> html_escape s = s.
Proof.
  intros H. unfold html_escape, dq.
  rewrite (replace_absent "&" _ s), (replace_absent "<" _ s),
    (replace_absent ">" _ s), (replace_absent dquote _ s),
    (replace_absent "'" _ s);
    try done; apply (free_of_chr _ _ _ H); unfold dq; simpl; tauto.
Qed.

(** A pattern that begins with a literal character matches nowhere in a
    text without that character. *)
Lemma attempt_needs_first a l r adv sn s :
  Forall (fun c => chr_eqb a c = false) s ->
  attempt (Lit (a :: l) ⋅ r) adv sn s = None.
Proof.
  intros Hs. unfold attempt. rewrite run_seq.
  destruct Hs as [|c s Hc _]; [apply run_lit_end | by apply run_lit_mismatch].
Qed.

Lemma attempt_em_needs_star adv sn s :
  Forall (fun c => chr_eqb "*" c = false) s -> attempt em_re adv sn s = None.
Proof.
  intros Hs. unfold attempt, em_re. rewrite run_seq.
  change (run (NotBehind ?p) ?k ?st)
    with (if opt_head_is p (seen st) then None else k st).
  destruct (opt_head_is _ _); [done|].
  rewrite run_seq.
  destruct Hs as [|c s Hc _]; [apply run_lit_end | by apply run_lit_mismatch].
Qed.

Lemma sub_from_no_match {S} r (f : S -> rmatch -> S * str) (P : ascii -> Prop) s :
  (forall sn' s', Forall P s' -> attempt r false sn' s' = None) ->
  Forall P s ->
  forall acc sn, sub_from r f acc sn 0 s = (acc, s).
Proof.
  intros Hno. induction 1 as [|c s Hc Hs IH]; intros acc sn; cbn [sub_from].
  - by rewrite Hno.
  - rewrite Hno by by constructor. by rewrite IH.
Qed.

Lemma sub_no_match r f (P : ascii -> Prop) s :
  (forall sn' s', Forall P s' -> attempt r false sn' s' = None) ->
  Forall P s -> sub r f s = s.
Proof.
  intros Hno Hs. unfold sub, sub_with.
  by rewrite (sub_from_no_match r _ P s Hno Hs).
Qed.

End PlainText.

(** C4, as the code has it. A string without a backtick, an asterisk, and
    without any of the five characters [html.escape] rewrites (the
    ampersand, both angle brackets, both quotes) comes back from
    [inline_format] unchanged. *)
Theorem inline_format_keeps_plain_text (s : str) :
  free_of ("`*<>&'" ++ dq) s -> inline_format s = s.
Proof.
  intros H. unfold inline_format, sub_with.
  rewrite (sub_from_no_match anchor_re protect (fun c => chr_eqb "<" c = false) s).
  2:{ intros. by apply attempt_needs_first. }
  2:{ apply (free_of_chr _ _ _ H). simpl. tauto. }
  rewrite html_escape_plain.
  2:{ eapply Forall_impl; [exact H|]. intros c Hc. simpl in *.
      unfold one_of, dq in *. simpl in *.
      repeat (apply orb_false_elim in Hc as [? Hc]).
      repeat (apply orb_false_intro; try done). }
  rewrite (sub_no_match code_re _ (fun c => chr_eqb "`" c = false) s).
  2:{ intros. by apply attempt_needs_first. }
  2:{ apply (free_of_chr _ _ _ H). simpl. tauto. }
  rewrite (sub_no_match bold_re _ (fun c => chr_eqb "*" c = false) s).
  2:{ intros. by apply attempt_needs_first. }
  2:{ apply (free_of_chr _ _ _ H). simpl. tauto. }
  rewrite (sub_no_match em_re _ (fun c => chr_eqb "*" c = false) s).
  2:{ intros. by apply attempt_em_needs_star. }
  2:{ apply (free_of_chr _ _ _ H). simpl. tauto. }
  done.
Qed.

Lemma inline_format_keeps_plain_text_witness :
  inline_format "Read the poem" = "Read the poem".
Proof.
  apply (inline_format_keeps_plain_text "Read the poem").
  unfold free_of. repeat constructor.
Defined.

(** C4 as stated fails: [a>b] holds no backtick, no asterisk, none of
    [<], [&] and the two quotes, and no anchor, yet its [>] is escaped. *)
Lemma inline_format_escapes_gt :
  ~ (forall s : str, free_of ("`*<&'" ++ dq) s -> inline_format s = s).
Proof.
  intros H. specialize (H "a>b"). 
  assert (Hfree : free_of ("`*<&'" ++ dq) "a>b") by (unfold free_of; repeat constructor).
  specialize (H Hfree). vm_compute in H. discriminate.
Qed.

(** *** The prompts of a fenced block (C3) *)

Section FencedPrompts.

Lemma or_str_nil t : or_str t [] = t.
Proof. by destruct t. Qed.

Lemma task_append_to key v p : Build.task (Build.append_to key v p) = Build.task p.
Proof. unfold Build.append_to. by repeat case_match. Qed.

Lemma truthy_nonempty s : truthy s = true <-> s <> [].
Proof. by destruct s. Qed.

(** The task string never starts or ends with white space. *)
Lemma fence_line_tight p cur raw :
  tight (Build.task p) -> tight (Build.task (fst (Build.fence_line p cur raw))).
Proof.
  intros Hp. unfold Build.fence_line. rewrite or_str_nil, Hp.
  destruct (rmatch_at_start Build.key_re _) as [mkey|].
  { cbn [fst]. repeat case_match; rewrite ?task_append_to; try done.
    apply strip_tight. }
  destruct (if Build.in_list_section cur then _ else _) as [mitem|].
  { cbn [fst]. by rewrite task_append_to. }
  destruct (bool_decide _ && truthy _) eqn:Hc; [|done].
  apply andb_prop in Hc as [_ Hne%truthy_nonempty].
  cbn [fst Build.task Build.set_task].
  destruct (truthy (Build.task p)) eqn:Ht.
  - apply truthy_nonempty in Ht. apply tight_join; try done. apply strip_tight.
  - destruct (Build.task p); [|done]. apply strip_tight.
Qed.

Lemma fence_fold_tight raws : forall pc,
  tight (Build.task (fst pc)) ->
  tight (Build.task (fst (fold_left (fun pc raw =>
                             Build.fence_line (fst pc) (snd pc) raw) raws pc))).
Proof.
  induction raws as [|raw raws IH]; intros pc H; [done|].
  cbn [fold_left]. apply IH. by apply fence_line_tight.
Qed.

Lemma fence_after_tight raws : tight (Build.task (fst (fence_after raws))).
Proof. by apply fence_fold_tight. Qed.

Lemma fence_line_continues_task p raw :
  tight (Build.task p) ->
  rmatch_at_start Build.key_re (strip (rstrip raw)) = None ->
  strip (rstrip raw) <> [] ->
  Build.fence_line p (Some "task") raw
  = (Build.set_task (Build.task p
                     ++ (if truthy (Build.task p) then " " else [])
                     ++ strip (rstrip raw)) p,
     Some "task").
Proof.
  intros Hp Hkey Hne. unfold Build.fence_line. rewrite Hkey.
  cbn [Build.in_list_section].
  replace (eqb "task" "watch" || eqb "task" "after") with false by done.
  rewrite bool_decide_eq_true_2 by done.
  apply truthy_nonempty in Hne. rewrite Hne. cbn [andb].
  by rewrite or_str_nil, Hp.
Qed.

End FencedPrompts.

(** C3. The fenced block [```video v1] with the body lines
    [task: Read the poem], [watch:] and [- tone] collects the task
    [Read the poem] and the one watch item [tone], and renders, after the
    video fragment of [v1], a Task paragraph with that text and a
    "Watch for" list with that one item. And in any fenced block, after any
    body lines that leave the current section at [task], a further line
    that is not blank and does not match the key pattern is appended to the
    task: after one space when the task is not empty, directly when it is. *)
Theorem fenced_block_prompts :
  (fst (Build.fence_body ["task: Read the poem"; "watch:"; "- tone"; "```"]
                         Build.no_prompts None)
   = Build.Prompts "Read the poem" ["tone"] []
   /\ forall resources : table,
       Build.md_to_html
         (join nl ["```video v1"; "task: Read the poem"; "watch:"; "- tone"; "```"])
         resources
       = Some ("<div class='video-stack'>"
               ++ video_block "v1" resources
               ++ "<div class='local-prompts'><div class='local-prompts-title'>Local prompts</div>"
               ++ "<div class='prompt-section'><div class='prompt-title'>Task</div><p>Read the poem</p></div>"
               ++ "<div class='prompt-section'><div class='prompt-title'>Watch for</div><ul><li>tone</li></ul></div>"
               ++ "</div>"
               ++ "</div>"))
  /\ (forall (raws : list str) (raw : str) (p : Build.prompts),
        fence_after raws = (p, Some "task") ->
        rmatch_at_start Build.key_re (strip (rstrip raw)) = None ->
        strip (rstrip raw) <> [] ->
        Build.fence_line p (Some "task") raw
        = (Build.set_task (Build.task p
                           ++ (if truthy (Build.task p) then " " else [])
                           ++ strip (rstrip raw)) p,
           Some "task")).
Proof.
  split; [split|].
  - vm_compute. reflexivity.
  - intros resources. lazy - [video_block]. reflexivity.
  - intros raws raw p Hafter Hkey Hne.
    apply fence_line_continues_task; try done.
    pose proof (fence_after_tight raws) as H. by rewrite Hafter in H.
Qed.

Lemma fenced_block_prompts_witness :
  Build.fence_line (Build.Prompts "Read" [] []) (Some "task") "the poem"
  = (Build.Prompts "Read the poem" [] [], Some "task").
Proof.
  apply (proj2 fenced_block_prompts ["task: Read"] "the poem"
               (Build.Prompts "Read" [] [])).
  - vm_compute. reflexivity.
  - vm_compute. reflexivity.
  - vm_compute. discriminate.
Defined.

(** *** The two generators (C6) *)

Section TwoGenerators.

Variable resources : table.

Lemma md_step_no_fence line rest st :
  opens_fence line = false ->
  Build.md_step resources line rest st = (rest, BuildV3.md_line resources line st).
Proof.
  unfold opens_fence, Build.md_step, BuildV3.md_line.
  destruct (rmatch_at_start Build.fence_re _); [done|]. intros _.
  by repeat case_match.
Qed.

Lemma md_run_no_fence lines : forall n st,
  Forall (fun l => opens_fence l = false) lines ->
  length lines <= n ->
  Build.md_run n resources lines st
  = ([], fold_left (fun st raw => BuildV3.md_line resources raw st) lines st).
Proof.
  induction lines as [|line rest IH]; intros n st Hall Hn.
  - by destruct n.
  - apply Forall_cons in Hall as [Hline Hrest].
    destruct n as [|n]; [simpl in Hn; lia|].
    cbn [Build.md_run]. rewrite md_step_no_fence by done.
    cbn [fold_left]. apply IH; [done | simpl in Hn; lia].
Qed.

End TwoGenerators.

(** C6. On a document none of whose lines opens a fenced video block, the
    index-based renderer of [build.py] ends and returns the very text the
    per-line renderer of [build_v3.py] returns, for the same resource
    table. *)
Theorem generators_agree_without_fences (md : str) (resources : table) :
  Forall (fun l => opens_fence l = false) (splitlines md) ->
  Build.md_to_html md resources = Some (BuildV3.md_to_html md resources).
Proof.
  intros H. unfold Build.md_to_html, BuildV3.md_to_html.
  by rewrite md_run_no_fence.
Qed.

Lemma generators_agree_without_fences_witness :
  Build.md_to_html ("# Poem" ++ nl ++ "- a" ++ nl ++ "1. b") ∅
  = Some (BuildV3.md_to_html ("# Poem" ++ nl ++ "- a" ++ nl ++ "1. b") ∅).
Proof.
  apply (generators_agree_without_fences ("# Poem" ++ nl ++ "- a" ++ nl ++ "1. b") ∅).
  vm_compute. repeat constructor.
Defined.

(** *** The loop of build.py ends *)

Section LoopEnds.

Variable resources : table.

Lemma Forall_suffix {X} (P : X -> Prop) (l1 l2 : list X) :
  l1 `suffix_of` l2 -> Forall P l2 -> Forall P l1.
Proof. intros [k ->] H. by apply Forall_app in H as [_ H]. Qed.

Lemma fence_body_suffix lines : forall p cur,
  snd (Build.fence_body lines p cur) `suffix_of` lines.
Proof.
  induction lines as [|l rest IH]; intros p cur; cbn [Build.fence_body]; [done|].
  destruct (startswith _ _); [done|].
  destruct (Build.fence_line _ _ _) as [p' cur'].
  by apply suffix_cons_r.
Qed.

Lemma md_step_suffix line rest st :
  fst (Build.md_step resources line rest st) `suffix_of` rest.
Proof.
  unfold Build.md_step.
  destruct (eqb _ ":::teacher"); [done|].
  destruct (eqb _ ":::"); [done|].
  destruct (rmatch_at_start Build.fence_re _).
  - pose proof (fence_body_suffix rest Build.no_prompts None) as H.
    destruct (Build.fence_body _ _ _) as [p rest']. cbn [snd] in H.
    destruct rest' as [|l rest'']; [done|].
    destruct (startswith _ _); [|done]. cbn [fst]. by eapply suffix_cons_l.
  - by repeat case_match.
Qed.

Lemma md_run_nil n st : Build.md_run n resources [] st = ([], st).
Proof. by destruct n. Qed.

Lemma md_run_ends n : forall lines st,
  length lines <= n -> fst (Build.md_run n resources lines st) = [].
Proof.
  induction n as [|n IH]; intros [|line rest] st Hn; try done; [simpl in Hn; lia|].
  cbn [Build.md_run].
  pose proof (md_step_suffix line rest st) as Hs%suffix_length.
  destruct (Build.md_step _ _ _ _) as [lines' st']. cbn [fst] in Hs.
  apply IH. simpl in Hn. lia.
Qed.

Lemma md_run_add n m : forall lines st,
  Build.md_run (n + m) resources lines st
  = Build.md_run m resources (fst (Build.md_run n resources lines st))
                 (snd (Build.md_run n resources lines st)).
Proof.
  induction n as [|n IH]; intros lines st; [done|].
  destruct lines as [|line rest]; [by rewrite !md_run_nil|].
  cbn [Build.md_run Nat.add].
  destruct (Build.md_step _ _ _ _) as [lines' st']. apply IH.
Qed.

Lemma md_run_stable n m lines st :
  fst (Build.md_run n resources lines st) = [] ->
  Build.md_run (n + m) resources lines st = Build.md_run n resources lines st.
Proof.
  intros H. rewrite md_run_add, H, md_run_nil.
  rewrite <- H at 1. by destruct (Build.md_run _ _ _ _).
Qed.

(** Any two numbers of turns that reach the end reach the same state. *)
Lemma md_run_end_unique n m lines st :
  fst (Build.md_run n resources lines st) = [] ->
  fst (Build.md_run m resources lines st) = [] ->
  Build.md_run n resources lines st = Build.md_run m resources lines st.
Proof.
  intros Hn Hm. destruct (decide (n <= m)).
  - replace m with (n + (m - n)) by lia. by rewrite md_run_stable.
  - replace n with (m + (n - m)) by lia. by rewrite md_run_stable.
Qed.

Lemma md_to_html_final md :
  exists st,
    Build.md_run (length (splitlines md)) resources (splitlines md) init = ([], st)
    /\ Build.md_to_html md resources = Some (join nl (out (finish st))).
Proof.
  unfold Build.md_to_html.
  pose proof (md_run_ends (length (splitlines md)) (splitlines md) init) as H.
  destruct (Build.md_run _ _ _ _) as [rest st]. cbn [fst] in H.
  rewrite H by done. by exists st.
Qed.

End LoopEnds.

(** [md_to_html] of [build.py] returns on every document. *)
Lemma md_to_html_total md resources :
  exists html, Build.md_to_html md resources = Some html.
Proof. destruct (md_to_html_final resources md) as (st & _ & ->). eauto. Qed.

(** *** Closing at the end of the input (C8) *)

Section Closing.

Variable resources : table.

Ltac flags :=
  cbn [snd fst in_ul in_ol in_bq in_teacher out close_lists close_bq emit
       set_ul set_ol set_bq set_teacher negb andb orb finish].

Lemma md_step_opens_teacher t post st :
  strip (rstrip_nl t) = ":::teacher" ->
  fst (Build.md_step resources t post st) = post
  /\ in_teacher (snd (Build.md_step resources t post st)) = true.
Proof.
  intros H. unfold Build.md_step. rewrite H.
  replace (eqb ":::teacher" ":::teacher") with true by done.
  destruct st as [o [] [] [] []]; by flags.
Qed.

Lemma md_step_keeps_teacher line rest st :
  strip (rstrip_nl line) <> ":::" ->
  in_teacher st = true ->
  in_teacher (snd (Build.md_step resources line rest st)) = true.
Proof.
  intros Hline Ht. unfold Build.md_step.
  destruct (eqb _ ":::") eqn:E; [by apply eqb_true in E|].
  destruct st as [o u l b t]. flags. simpl in Ht. subst t.
  repeat (case_match; flags; try done); destruct u, l, b; by flags.
Qed.

Lemma md_run_keeps_teacher n : forall lines st,
  Forall (fun l => strip (rstrip_nl l) <> ":::") lines ->
  in_teacher st = true ->
  in_teacher (snd (Build.md_run n resources lines st)) = true.
Proof.
  induction n as [|n IH]; intros [|line rest] st Hall Ht; try done.
  apply Forall_cons in Hall as [Hline Hrest]. cbn [Build.md_run].
  pose proof (md_step_suffix resources line rest st) as Hs.
  pose proof (md_step_keeps_teacher line rest st Hline Ht) as Hk.
  destruct (Build.md_step _ _ _ _) as [lines' st']. cbn [fst snd] in *.
  apply IH; [by eapply Forall_suffix | done].
Qed.

Lemma finish_out st :
  out (finish st)
  = out st
    ++ (if in_ul st then ["</ul>"] else [])
    ++ (if in_ol st then ["</ol>"] else [])
    ++ (if in_bq st then ["</blockquote>"] else [])
    ++ (if in_teacher st then ["</div>"] else []).
Proof.
  destruct st as [o [] [] [] []]; flags;
    rewrite <- ?app_assoc, ?app_nil_r; done.
Qed.

Lemma unclosed_teacher_is_closed md n t post st :
  Build.md_run n resources (splitlines md) init = (t :: post, st) ->
  strip (rstrip_nl t) = ":::teacher" ->
  Forall (fun l => strip (rstrip_nl l) <> ":::") post ->
  exists st',
    Build.md_run (length (splitlines md)) resources (splitlines md) init = ([], st')
    /\ in_teacher st' = true
    /\ Build.md_to_html md resources
       = Some (join nl (out (close_bq (close_lists st')) ++ ["</div>"])).
Proof.
  intros Hn Ht Hpost.
  destruct (md_to_html_final resources md) as (st' & Hrun & Hhtml).
  exists st'. split; [done|].
  assert (Hin : in_teacher st' = true).
  { pose proof (md_run_add resources n (S (length post)) (splitlines md) init) as Ha.
    rewrite Hn in Ha. cbn [fst snd] in Ha.
    assert (He : fst (Build.md_run (n + S (length post)) resources
                                   (splitlines md) init) = []).
    { rewrite Ha. apply md_run_ends. simpl. lia. }
    pose proof (md_run_end_unique resources _ _ _ _ He
                  (f_equal fst Hrun : fst _ = [])) as Hu.
    rewrite Hrun, Ha in Hu. apply (f_equal snd) in Hu. cbn [snd] in Hu.
    rewrite <- Hu. cbn [Build.md_run].
    destruct (md_step_opens_teacher t post st Ht) as [Hf Hs].
    destruct (Build.md_step _ _ _ _) as [lines1 st1]. cbn [fst snd] in *.
    subst lines1. by apply md_run_keeps_teacher. }
  split; [done|]. rewrite Hhtml. do 2 f_equal.
  destruct st' as [o [] [] [] t']; simpl in Hin; subst t'; by flags.
Qed.

End Closing.

(** C8. When the loop of [build.py] reads a line [:::teacher] and no line
    after it is [:::], the renderer returns, the section is still open at
    the end of the input, and the text returned ends with the closing
    wrapper, put after whatever closes a list or a blockquote. And at the
    end of any input, what is still open is closed in this order: the
    unordered list, the ordered list, the blockquote, the teacher-only
    section. *)
Theorem open_blocks_closed_at_end :
  (forall (md : str) (resources : table) (n : nat) (t : str)
          (post : list str) (st : rstate),
      Build.md_run n resources (splitlines md) init = (t :: post, st) ->
      strip (rstrip_nl t) = ":::teacher" ->
      Forall (fun l => strip (rstrip_nl l) <> ":::") post ->
      exists st',
        Build.md_run (length (splitlines md)) resources (splitlines md) init
        = ([], st')
        /\ in_teacher st' = true
        /\ Build.md_to_html md resources
           = Some (join nl (out (close_bq (close_lists st')) ++ ["</div>"])))
  /\ (forall (md : str) (resources : table),
        exists st,
          Build.md_run (length (splitlines md)) resources (splitlines md) init
          = ([], st)
          /\ Build.md_to_html md resources = Some (join nl (out (finish st))))
  /\ (forall st : rstate,
        out (finish st)
        = out st
          ++ (if in_ul st then ["</ul>"] else [])
          ++ (if in_ol st then ["</ol>"] else [])
          ++ (if in_bq st then ["</blockquote>"] else [])
          ++ (if in_teacher st then ["</div>"] else [])).
Proof.
  split; [|split].
  - intros. by eapply unclosed_teacher_is_closed.
  - intros. apply md_to_html_final.
  - apply finish_out.
Qed.

Lemma open_blocks_closed_at_end_witness :
  exists st',
    Build.md_run (length (splitlines (":::teacher" ++ nl ++ "- a"))) ∅
                 (splitlines (":::teacher" ++ nl ++ "- a")) init
    = ([], st')
    /\ in_teacher st' = true
    /\ Build.md_to_html (":::teacher" ++ nl ++ "- a") ∅
       = Some (join nl (out (close_bq (close_lists st')) ++ ["</div>"])).
Proof.
  apply (proj1 open_blocks_closed_at_end (":::teacher" ++ nl ++ "- a") ∅
               0 ":::teacher" ["- a"] init).
  - reflexivity.
  - reflexivity.
  - constructor; [vm_compute; discriminate | constructor].
Defined.

(** *** The kind of a resource is never read (C9) *)

Section KindIgnored.

Variables r1 r2 : table.
Hypothesis Hsame : tables_same_but_type r1 r2.

Lemma get_same rid key :
  key <> "type" -> (r1 !! rid) ≫= (.!! key) = (r2 !! rid) ≫= (.!! key).
Proof.
  intros Hkey. specialize (Hsame rid).
  destruct (r1 !! rid) as [a|], (r2 !! rid) as [b|]; try done.
  by apply Hsame.
Qed.

Lemma usable_same rid :
  negb (truthy_item (r1 !! rid)) || negb (truthy_get (r1 !! rid) "url")
  = negb (truthy_item (r2 !! rid)) || negb (truthy_get (r2 !! rid) "url").
Proof.
  unfold truthy_get. rewrite (get_same rid "url") by done.
  specialize (Hsame rid).
  destruct (r1 !! rid) as [a|], (r2 !! rid) as [b|]; try done.
  change (Some b ≫= (.!! "url")) with (b !! "url").
  destruct (b !! "url") as [u|] eqn:Eb; [|by rewrite !orb_true_r].
  destruct (truthy u) eqn:Eu; [|by rewrite !orb_true_r].
  assert (Ea : a !! "url" = Some u) by (by rewrite (Hsame "url")).
  unfold truthy_item.
  rewrite !bool_decide_eq_false_2; [done | |]; intros ->; by rewrite lookup_empty in *.
Qed.

Lemma video_block_same rid : video_block rid r1 = video_block rid r2.
Proof.
  unfold video_block. cbv zeta.
  by rewrite usable_same, (get_same rid "url"), (get_same rid "label"),
    (get_same rid "desc").
Qed.

Lemma inline_link_same rid : inline_link rid r1 = inline_link rid r2.
Proof.
  unfold inline_link. cbv zeta.
  by rewrite usable_same, (get_same rid "url"), (get_same rid "label").
Qed.

End KindIgnored.

Section Substitution.

Context {S : Type}.
Variable r : regex.
Variables f g : S -> rmatch -> S * str.
Hypothesis Hfg : forall acc m, f acc m = g acc m.

Lemma sub_from_ext s : forall acc sn skip,
  sub_from r f acc sn skip s = sub_from r g acc sn skip s.
Proof.
  induction s as [|c t IH]; intros acc sn skip.
  - destruct skip; cbn [sub_from]; [|done].
    destruct (attempt r false sn []) as [m|]; [|done]. rewrite Hfg.
    destruct (g acc m) as [acc1 rep1]. destruct (m_text m); [|done].
    destruct (attempt r true sn []) as [m2|]; [|done]. by rewrite Hfg.
  - destruct skip; cbn [sub_from]; [|by rewrite IH].
    destruct (attempt r false sn (c :: t)) as [m|]; [|by rewrite IH].
    rewrite Hfg. destruct (g acc m) as [acc1 rep1].
    destruct (m_text m); [|by rewrite IH].
    destruct (attempt r true sn (c :: t)) as [m2|]; [|by rewrite IH].
    rewrite Hfg. destruct (g acc1 m2) as [acc2 rep2]. by rewrite IH.
Qed.

End Substitution.

Section KindIgnoredRender.

Variables r1 r2 : table.
Hypothesis Hsame : tables_same_but_type r1 r2.

Lemma expand_inline_refs_same text :
  expand_inline_refs text r1 = expand_inline_refs text r2.
Proof.
  unfold expand_inline_refs, sub, sub_with. f_equal.
  apply sub_from_ext. intros acc m. by rewrite (inline_link_same r1 r2).
Qed.

Lemma local_prompts_block_same p :
  Build.local_prompts_block p r1 = Build.local_prompts_block p r2.
Proof.
  unfold Build.local_prompts_block, Build.prompt_items. cbv zeta.
  rewrite (expand_inline_refs_same (strip (or_str (Build.task p) []))).
  rewrite (map_ext _ _ (fun it => f_equal (fun x => "<li>" ++ inline_format x ++ "</li>")
                                   (expand_inline_refs_same it)) (Build.watch p)).
  by rewrite (map_ext _ _ (fun it => f_equal (fun x => "<li>" ++ inline_format x ++ "</li>")
                                      (expand_inline_refs_same it)) (Build.after p)).
Qed.

Lemma md_step_same line rest st :
  Build.md_step r1 line rest st = Build.md_step r2 line rest st.
Proof.
  unfold Build.md_step. cbv zeta.
  repeat case_match;
    rewrite ?(video_block_same r1 r2 Hsame), ?local_prompts_block_same,
      ?expand_inline_refs_same; done.
Qed.

Lemma md_run_same n : forall lines st,
  Build.md_run n r1 lines st = Build.md_run n r2 lines st.
Proof.
  induction n as [|n IH]; intros [|line rest] st; try done.
  cbn [Build.md_run]. rewrite md_step_same.
  destruct (Build.md_step _ _ _ _). apply IH.
Qed.

Lemma md_line_same raw st : BuildV3.md_line r1 raw st = BuildV3.md_line r2 raw st.
Proof.
  unfold BuildV3.md_line. cbv zeta.
  repeat case_match;
    rewrite ?(video_block_same r1 r2 Hsame), ?expand_inline_refs_same; done.
Qed.

End KindIgnoredRender.

Lemma md_to_html_same r1 r2 md :
  tables_same_but_type r1 r2 ->
  Build.md_to_html md r1 = Build.md_to_html md r2
  /\ BuildV3.md_to_html md r1 = BuildV3.md_to_html md r2.
Proof.
  intros H. split.
  - unfold Build.md_to_html. by rewrite (md_run_same r1 r2 H).
  - unfold BuildV3.md_to_html. do 3 f_equal.
    generalize init. induction (splitlines md) as [|raw lines IH]; intros st; [done|].
    cbn [fold_left]. by rewrite (md_line_same r1 r2 H), IH.
Qed.

(** A resource with a url that is not empty gets the full fragment,
    whatever its other entries. *)
Lemma video_block_full (resources : table) (rid : str) (it : item) (u : str) :
  resources !! rid = Some it -> it !! "url" = Some u -> u <> [] ->
  video_block rid resources <> missing_bookmark rid
  /\ exists top,
      video_block rid resources
      = "<div class='video'>" ++ top
        ++ ("<div class='video-bottom'><p class='video-open'><a href="
            ++ quoted (html_escape u) ++ target_blank
            ++ "Open on YouTube</a></p></div>")
        ++ "</div>".
Proof.
  intros Hit Hurl Hu. unfold video_block. rewrite Hit.
  assert (Hok : negb (truthy_item (Some it)) || negb (truthy_get (Some it) "url")
                = false).
  { unfold truthy_get, truthy_item.
    change (Some it ≫= (.!! "url")) with (it !! "url"). rewrite Hurl.
    rewrite bool_decide_eq_false_2 by (intros ->; by rewrite lookup_empty in Hurl).
    by destruct u. }
  rewrite Hok. cbv zeta.
  change (Some it ≫= (.!! "url")) with (it !! "url"). rewrite Hurl.
  cbn [default]. split; [|by eexists].
  unfold missing_bookmark, cat.
  repeat case_match; cbn [concat app]; discriminate.
Qed.

(** C9. No output depends on the ["type"] entry of a resource: on two
    tables that differ in such entries only, [video_block], [inline_link]
    and both document renderers return the same. In particular a resource
    of kind [link] with a url that is not empty gets the full video
    fragment, not the "Missing bookmark" one; so does [{{video:v1}}] in a
    document that declares [v1] with [@link]. *)
Theorem output_ignores_resource_kind :
  (forall r1 r2 : table,
      tables_same_but_type r1 r2 ->
      (forall rid, video_block rid r1 = video_block rid r2)
      /\ (forall rid, inline_link rid r1 = inline_link rid r2)
      /\ (forall md, Build.md_to_html md r1 = Build.md_to_html md r2)
      /\ (forall md, BuildV3.md_to_html md r1 = BuildV3.md_to_html md r2))
  /\ (forall (resources : table) (rid : str) (it : item) (u : str),
        resources !! rid = Some it ->
        it !! "type" = Some "link" ->
        it !! "url" = Some u -> u <> [] ->
        video_block rid resources <> missing_bookmark rid
        /\ exists top,
            video_block rid resources
            = "<div class='video'>" ++ top
              ++ ("<div class='video-bottom'><p class='video-open'><a href="
                  ++ quoted (html_escape u) ++ target_blank
                  ++ "Open on YouTube</a></p></div>")
              ++ "</div>")
  /\ (let md := "@link v1" ++ nl ++ "url: https://youtu.be/XYZ" ++ nl ++ "{{video:v1}}" in
      exists resources,
        parse_bookmarks md = Some resources
        /\ (resources !! "v1") ≫= (.!! "type") = Some "link"
        /\ Build.md_to_html md resources
           = Some (join nl
               ["<p>@link v1</p>";
                "<p>url: https://youtu.be/XYZ</p>";
                "<div class='video'><div class='video-top'>"
                ++ "<a class='video-thumb' href=" ++ quoted "https://youtu.be/XYZ"
                ++ target_blank
                ++ "<img alt='Video thumbnail' src="
                ++ quoted "https://i.ytimg.com/vi/XYZ/hqdefault.jpg" ++ "></a>"
                ++ "<div class='video-title'><span class='tag'>Video</span> "
                ++ "<a href=" ++ quoted "https://youtu.be/XYZ" ++ target_blank
                ++ "<strong>Video</strong></a></div></div>"
                ++ "<div class='video-bottom'><p class='video-open'><a href="
                ++ quoted "https://youtu.be/XYZ" ++ target_blank
                ++ "Open on YouTube</a></p></div></div>"])).
Proof.
  split; [|split].
  - intros r1 r2 H. repeat split; intros.
    + by apply video_block_same.
    + by apply inline_link_same.
    + by apply md_to_html_same.
    + by apply md_to_html_same.
  - intros resources rid it u Hit _ Hurl Hu. by eapply video_block_full.
  - cbv zeta.
    destruct (parse_bookmarks _) as [resources|] eqn:E; [|by vm_compute in E].
    exists resources. split; [done|].
    vm_compute in E. injection E as <-. split; vm_compute; reflexivity.
Qed.

Lemma output_ignores_resource_kind_witness :
  video_block "v1" {[ "v1" := new_item "video" ]}
  = video_block "v1" {[ "v1" := new_item "link" ]}.
Proof.
  apply (proj1 output_ignores_resource_kind
               {[ "v1" := new_item "video" ]} {[ "v1" := new_item "link" ]}).
  intros rid. destruct (decide (rid = "v1")) as [-> | Hne].
  - rewrite !lookup_singleton_eq. intros key Hkey. unfold new_item.
    rewrite !lookup_insert. repeat case_decide; try done; congruence.
  - by rewrite !lookup_singleton_ne.
Defined.


(** *** A match of a longer pattern is a match of its beginning *)

Section Monotone.

Context {A B : Type}.

Lemma rep_mono p g (k1 : str -> str -> option A) (k2 : str -> str -> option B) rs :
  (forall sn r, is_Some (k1 sn r) -> is_Some (k2 sn r)) ->
  forall lo hi sn, is_Some (rep p g lo hi k1 sn rs) -> is_Some (rep p g lo hi k2 sn rs).
Proof.
  intros Hk. induction rs as [|c t IH]; intros lo hi sn H.
  - destruct g, lo; cbn [rep] in *; try by destruct H.
    + by apply Hk.
    + destruct (k1 sn []) eqn:E; [|by destruct H].
      destruct (Hk sn [] (ltac:(by rewrite E))) as [y ->]. eauto.
  - destruct g; cbn [rep] in *.
    + destruct (p c && may_repeat hi).
      * destruct (rep p true (pred lo) (one_less hi) k1 (c :: sn) t) eqn:E.
        { destruct (IH (pred lo) (one_less hi) (c :: sn) (ltac:(by rewrite E)))
            as [y ->]. eauto. }
        destruct (rep p true (pred lo) (one_less hi) k2 (c :: sn) t); [eauto|].
        destruct lo; [by apply Hk | by destruct H].
      * destruct lo; [by apply Hk | by destruct H].
    + destruct lo.
      * destruct (k1 sn (c :: t)) eqn:E.
        { destruct (Hk sn (c :: t) (ltac:(by rewrite E))) as [y ->]. eauto. }
        destruct (k2 sn (c :: t)); [eauto|].
        destruct (p c && may_repeat hi); [by apply IH | by destruct H].
      * destruct (p c && may_repeat hi); [by apply IH | by destruct H].
Qed.

End Monotone.

Lemma run_mono r : forall {A B} (k1 : mstate -> option A) (k2 : mstate -> option B),
  (forall st, is_Some (k1 st) -> is_Some (k2 st)) ->
  forall st, is_Some (run r k1 st) -> is_Some (run r k2 st).
Proof.
  induction r as [s|p|r1 IH1 r2 IH2|r1 IH1 r2 IH2|p lo hi g|n r IH| | | |p|p];
    intros A B k1 k2 Hk st H; cbn [run] in *.
  - destruct (strip_prefix s (rest st)); [by apply Hk | by destruct H].
  - destruct (rest st) as [|c t]; [by destruct H|].
    destruct (p c); [by apply Hk | by destruct H].
  - eapply IH1; [|exact H]. intros st'. by apply IH2.
  - destruct (run r1 k1 st) eqn:E.
    + destruct (IH1 _ _ k1 k2 Hk st (ltac:(by rewrite E))) as [y ->]. eauto.
    + destruct (run r1 k2 st); [eauto|]. by eapply IH2.
  - eapply rep_mono; [|exact H]. intros sn r. apply Hk.
  - eapply IH; [|exact H]. intros st'. apply Hk.
  - destruct (seen st); [by apply Hk | by destruct H].
  - destruct (rest st) as [|c [|d t]]; [by apply Hk | | by destruct H].
    destruct (chr_eqb c "010"); [by apply Hk | by destruct H].
  - destruct (xorb _ _); [by apply Hk | by destruct H].
  - destruct (opt_head_is p (seen st)); [by destruct H | by apply Hk].
  - destruct (opt_head_is p (rest st)); [by destruct H | by apply Hk].
Qed.

(** A line that declares a resource ends the record before it. *)
Lemma declares_starts d rtype rid : declares d rtype rid -> starts_decl d = true.
Proof.
  intros (m & Hm & _). unfold starts_decl.
  assert (H : is_Some (rmatch_at_start decl_start_re (rstrip d))).
  { unfold rmatch_at_start, attempt, decl_re, decl_start_re in *.
    rewrite !run_seq in *.
    eapply run_mono; [|by rewrite Hm].
    intros st1. rewrite !run_seq. apply run_mono.
    intros st2. rewrite !run_seq. apply run_mono.
    intros st3. rewrite !run_seq. apply run_mono.
    intros st4 _. by eexists. }
  by destruct H as [x ->].
Qed.

(** *** Declarations of one id (C7) *)

Section LastDeclaration.

Lemma scan_item_suffix lines : forall it, snd (scan_item lines it) `suffix_of` lines.
Proof.
  induction lines as [|l rest IH]; intros it; cbn [scan_item]; [done|].
  destruct (rmatch_at_start decl_start_re _); [done|].
  by apply suffix_cons_r.
Qed.

(** The inner loop reads a record up to the next line that starts a
    declaration, or to the end. *)
Lemma scan_item_record body post : forall it,
  Forall (fun l => starts_decl l = false) body ->
  post = [] \/ (exists d' post', post = d' :: post' /\ starts_decl d' = true) ->
  scan_item (body ++ post) it
  = (fold_left (fun it l => apply_attr it (rstrip l)) body it, post).
Proof.
  intros it Hbody Hpost. revert it.
  induction Hbody as [|l body Hl _ IH]; intros it.
  - destruct Hpost as [-> | (d' & post' & -> & Hd)]; [done|].
    cbn [app scan_item fold_left]. unfold starts_decl in Hd.
    by destruct (rmatch_at_start decl_start_re _).
  - cbn [app scan_item fold_left]. unfold starts_decl in Hl.
    destruct (rmatch_at_start decl_start_re _); [done|]. apply IH.
Qed.

(** Wherever the inner loop starts before a declaration, it stops at it or
    before it. *)
Lemma scan_item_reach d rest pre : forall it,
  starts_decl d = true ->
  exists pre', snd (scan_item (pre ++ d :: rest) it) = pre' ++ d :: rest
               /\ length pre' <= length pre.
Proof.
  intros it Hd. revert it. induction pre as [|l pre IH]; intros it.
  - exists []. split; [|done]. cbn [app scan_item]. unfold starts_decl in Hd.
    by destruct (rmatch_at_start decl_start_re _).
  - cbn [app scan_item].
    destruct (rmatch_at_start decl_start_re (rstrip l)).
    + exists (l :: pre). by split.
    + destruct (IH (apply_attr it (rstrip l))) as (pre' & -> & Hlen).
      exists pre'. split; [done | simpl; lia].
Qed.

Lemma parse_step_suffix line rest resources :
  fst (parse_step line rest resources) `suffix_of` rest.
Proof.
  unfold parse_step. destruct (rmatch_at_start decl_re _) as [m|]; [|done].
  pose proof (scan_item_suffix rest (new_item (group 1 m))) as H.
  by destruct (scan_item _ _).
Qed.

Lemma parse_run_ends n : forall lines resources,
  length lines <= n -> fst (parse_run n lines resources) = [].
Proof.
  induction n as [|n IH]; intros [|line rest] resources Hn; try done;
    [simpl in Hn; lia|].
  cbn [parse_run].
  pose proof (parse_step_suffix line rest resources) as Hs%suffix_length.
  destruct (parse_step _ _ _) as [lines' resources']. cbn [fst] in Hs.
  apply IH. simpl in Hn. lia.
Qed.

(** From any line before a declaration, the outer loop comes to read that
    declaration. *)
Lemma parse_run_reach d rest n : forall pre resources,
  starts_decl d = true ->
  length (pre ++ d :: rest) <= n ->
  exists n' resources',
    length (d :: rest) <= n'
    /\ parse_run n (pre ++ d :: rest) resources
       = parse_run n' (d :: rest) resources'.
Proof.
  induction n as [|n IH]; intros pre resources Hd Hn.
  { rewrite length_app in Hn. simpl in Hn. lia. }
  destruct pre as [|l pre].
  - exists (S n), resources. by split.
  - cbn [app parse_run]. unfold parse_step.
    rewrite length_app in Hn. simpl in Hn.
    destruct (rmatch_at_start decl_re (rstrip l)) as [m|].
    + destruct (scan_item_reach d rest pre (new_item (group 1 m)) Hd)
        as (pre' & Hpre & Hlen).
      destruct (scan_item _ _) as [it rest']. cbn [snd] in Hpre. subst rest'.
      apply IH; [done|]. rewrite length_app. simpl. lia.
    + apply IH; [done|]. rewrite length_app. simpl. lia.
Qed.

(** Lines that do not declare [rid] leave its entry alone. *)
Lemma parse_run_keeps rid n : forall lines resources,
  Forall (fun l => forall rtype, ~ declares l rtype rid) lines ->
  snd (parse_run n lines resources) !! rid = resources !! rid.
Proof.
  induction n as [|n IH]; intros [|l rest] resources Hall; try done.
  apply Forall_cons in Hall as [Hl Hrest]. cbn [parse_run].
  pose proof (parse_step_suffix l rest resources) as Hs.
  unfold parse_step in *.
  destruct (rmatch_at_start decl_re (rstrip l)) as [m|] eqn:Em.
  - destruct (scan_item _ _) as [it rest']. cbn [fst] in Hs.
    rewrite IH by by eapply Forall_suffix.
    apply lookup_insert_ne. intros Hrid.
    apply (Hl (group 1 m)). by exists m.
  - by apply IH.
Qed.

Lemma record_of_final_declaration lines pre d body post rtype rid :
  lines = pre ++ d :: body ++ post ->
  declares d rtype rid ->
  Forall (fun l => starts_decl l = false) body ->
  post = [] \/ (exists d' post', post = d' :: post' /\ starts_decl d' = true) ->
  Forall (fun l => forall rtype', ~ declares l rtype' rid) post ->
  exists resources,
    parse_run (length lines) lines ∅ = ([], resources)
    /\ resources !! rid = Some (record_of rtype body).
Proof.
  intros -> Hd Hbody Hpost Hrid.
  pose proof (declares_starts _ _ _ Hd) as Hstart.
  destruct (parse_run_reach d (body ++ post) _ pre ∅ Hstart (le_n _))
    as (n' & res' & Hn' & ->).
  destruct n' as [|n']; [simpl in Hn'; lia|].
  cbn [parse_run]. unfold parse_step.
  destruct Hd as (m & -> & <- & <-).
  rewrite scan_item_record by done.
  pose proof (parse_run_ends n' post (<[group 2 m := record_of (group 1 m) body]> res')) as He.
  pose proof (parse_run_keeps (group 2 m) n' post
                (<[group 2 m := record_of (group 1 m) body]> res') Hrid) as Hk.
  fold (record_of (group 1 m) body).
  destruct (parse_run n' post _) as [lines' resources]. cbn [fst snd] in *.
  exists resources. split.
  - rewrite He; [done|]. simpl in Hn'. rewrite length_app in Hn'. lia.
  - by rewrite Hk, lookup_insert_eq.
Qed.

End LastDeclaration.

(** C7. Let a line [d] of the document declare the id [rid], let [body] be
    the lines of its record (the lines after [d] up to the next line that
    starts a declaration, or to the end), and let no line after the record
    declare [rid] again. Then, whatever stands before [d], earlier
    declarations of [rid] included, [parse_bookmarks] returns a table, and
    its entry for [rid] is the record [d] and [body] build. *)
Theorem last_declaration_wins (md : str) (pre body post : list str)
    (d rtype rid : str) :
  splitlines md = pre ++ d :: body ++ post ->
  declares d rtype rid ->
  Forall (fun l => starts_decl l = false) body ->
  post = [] \/ (exists d' post', post = d' :: post' /\ starts_decl d' = true) ->
  Forall (fun l => forall rtype', ~ declares l rtype' rid) post ->
  exists resources,
    parse_bookmarks md = Some resources
    /\ resources !! rid = Some (record_of rtype body).
Proof.
  intros Hlines Hd Hbody Hpost Hrid.
  destruct (record_of_final_declaration _ _ _ _ _ _ _ Hlines Hd Hbody Hpost Hrid)
    as (resources & Hrun & Hlook).
  exists resources. split; [|done].
  unfold parse_bookmarks. by rewrite Hrun.
Qed.

Lemma last_declaration_wins_witness :
  exists resources,
    parse_bookmarks ("@video v1" ++ nl ++ "url: a" ++ nl ++ "@link v1" ++ nl ++ "url: b")
    = Some resources
    /\ resources !! "v1" = Some (record_of "link" ["url: b"]).
Proof.
  apply (last_declaration_wins
           ("@video v1" ++ nl ++ "url: a" ++ nl ++ "@link v1" ++ nl ++ "url: b")
           ["@video v1"; "url: a"] ["url: b"] [] "@link v1" "link" "v1").
  - reflexivity.
  - eexists. split; [vm_compute; reflexivity | by split].
  - by repeat constructor.
  - by left.
  - constructor.
Defined.

(** *** The table is always built *)

Lemma parse_bookmarks_total md : exists resources, parse_bookmarks md = Some resources.
Proof.
  unfold parse_bookmarks.
  pose proof (parse_run_ends (length (splitlines md)) (splitlines md) ∅ (le_n _)) as H.
  destruct (parse_run _ _ _) as [lines resources]. cbn [fst] in H. subst lines.
  eauto.
Qed.
